(** * Quote image generator: the record parser, the text wrapper, the layout
      fitter and font resolution of [src/generate/helpers.py], embedded in Rocq.

    Python strings are modelled as lists of characters ([list ascii], one
    [ascii] per code point, which covers the code points below 256), Python
    integers as [Z] or [nat], exceptions as an explicit [result] type. *)

From Stdlib Require Import String Ascii DecimalString DecimalNat.
From Stdlib Require Import List ZArith Bool Lia Arith.
Import ListNotations.

Set Implicit Arguments.

(** ** Python strings *)

Definition str := list ascii.

Module Py.

(** String literals are written as Rocq strings and read as [str]. *)
Definition lit (s : string) : str := list_ascii_of_string s.

Definition ch (n : nat) : ascii := ascii_of_nat n.

Definition NL : ascii := ch 10.
Definition DQUOTE : ascii := ch 34.
Definition COMMA : ascii := ch 44.
Definition HYPHEN : ascii := ch 45.
Definition SPACE : ascii := ch 32.
Definition TAB : ascii := ch 9.
Definition CR : ascii := ch 13.

Definition eqb_str (a b : str) : bool :=
  if list_eq_dec ascii_dec a b then true else false.

(** [bool(s)]: a string is truthy when it is not empty. *)
Definition truthy (s : str) : bool :=
  match s with [] => false | _ :: _ => true end.

Definition len (s : str) : Z := Z.of_nat (length s).

(** [c.isspace()] on code points below 256: tab, line feed, vertical tab,
    form feed, carriage return, the separators 28..31, space, NEL (133)
    and the no-break space (160). *)
Definition isspace (c : ascii) : bool :=
  let n := nat_of_ascii c in
  ((9 <=? n) && (n <=? 13)) || ((28 <=? n) && (n <=? 32))
  || (n =? 133) || (n =? 160).

Fixpoint lstrip (s : str) : str :=
  match s with
  | c :: s' => if isspace c then lstrip s' else s
  | [] => []
  end.

Definition rstrip (s : str) : str := rev (lstrip (rev s)).

(** [s.strip()] *)
Definition strip (s : str) : str := rstrip (lstrip s).

(** [s.startswith(p)] *)
Fixpoint startswith (s p : str) : bool :=
  match p, s with
  | [], _ => true
  | _ :: _, [] => false
  | a :: p', b :: s' => Ascii.eqb a b && startswith s' p'
  end.

(** [s.endswith(p)] *)
Definition endswith (s p : str) : bool := startswith (rev s) (rev p).

(** [sub in s] *)
Fixpoint contains (sub s : str) : bool :=
  startswith s sub ||
  match s with
  | [] => false
  | _ :: s' => contains sub s'
  end.

(** The split of [s] around the last occurrence of [sep], when there is
    one: the scan keeps the occurrence that starts latest. *)
Fixpoint rpartition (sep s : str) : option (str * str) :=
  match s with
  | [] => if startswith [] sep then Some ([], []) else None
  | c :: s' =>
      match rpartition sep s' with
      | Some (a, b) => Some (c :: a, b)
      | None =>
          if startswith s sep then Some ([], skipn (length sep) s) else None
      end
  end.

(** [s.rsplit(sep, 1)] for a non-empty separator. *)
Definition rsplit1 (sep s : str) : list str :=
  match rpartition sep s with
  | Some (a, b) => [a; b]
  | None => [s]
  end.

(** [s.split("\n")]: always at least one piece. *)
Fixpoint split_nl (s : str) : list str :=
  match s with
  | [] => [[]]
  | c :: s' =>
      if Ascii.eqb c NL then [] :: split_nl s'
      else match split_nl s' with
           | p :: ps => (c :: p) :: ps
           | [] => [[c]]
           end
  end.

(** [s[1:]] and [s[:-1]] *)
Definition drop_first (s : str) : str := tl s.
Definition drop_last (s : str) : str := removelast s.

(** [s[:e]] for an integer [e], negative values counting from the end. *)
Definition slice_to (s : str) (e : Z) : str :=
  if (e <? 0)%Z then firstn (length s - Z.to_nat (- e)) s
  else firstn (Z.to_nat e) s.

(** [s[e:]] *)
Definition slice_from (s : str) (e : Z) : str :=
  if (e <? 0)%Z then skipn (length s - Z.to_nat (- e)) s
  else skipn (Z.to_nat e) s.

(** Index of the last [c] in [s], or [-1]: [s.rfind(c)].  The scan is
    at index [i] and [best] is the last index found before it. *)
Fixpoint rfind_from (c : ascii) (s : str) (i best : Z) : Z :=
  match s with
  | [] => best
  | d :: s' => rfind_from c s' (i + 1)%Z (if Ascii.eqb d c then i else best)
  end.

Definition rfind_char (c : ascii) (s : str) : Z :=
  rfind_from c s 0%Z (-1)%Z.

(** [c.upper()] on the ASCII letters; the other characters are left as
    they are, which does not change whether the result equals ["NULL"]
    (no other code point has N, U or L as its upper case). *)
Definition upper_char (c : ascii) : ascii :=
  let n := nat_of_ascii c in
  if (97 <=? n) && (n <=? 122) then ascii_of_nat (n - 32) else c.

Definition upper (s : str) : str := map upper_char s.

(** [f"{n:03d}"] for a natural number. *)
Definition fmt_03d (n : nat) : str :=
  let d := lit (NilEmpty.string_of_uint (Nat.to_uint n)) in
  repeat (ch 48) (3 - length d) ++ d.

(** [os.path.join(a, b)] on POSIX. *)
Definition path_join (a b : str) : str :=
  if startswith b [ch 47] then b
  else if negb (truthy a) || endswith a [ch 47] then a ++ b
  else a ++ [ch 47] ++ b.

End Py.

Notation "'s!' x" := (Py.lit x) (at level 1, x at level 0, only parsing).

(** ** Exceptions *)

Inductive exn : Type :=
| ZeroDivisionError
| ValueError
| OSError.

Inductive result (A : Type) : Type :=
| Ok (a : A)
| Raise (e : exn).

Arguments Ok {A} a.
Arguments Raise {A} e.

Definition rbind {A B : Type} (m : result A) (k : A -> result B) : result B :=
  match m with
  | Ok a => k a
  | Raise e => Raise e
  end.

Notation "x <- m ;; k" := (rbind m (fun x => k))
  (at level 61, m at next level, right associativity).

(** ** The record parser: [QuoteImageGenerator.process_csv] *)

(** One completed call [generate_image(quote, speaker, output_path)]. *)
Record image_call : Type := Call {
  call_quote : str;
  call_speaker : str;
  call_path : str
}.

(** The local variables of the loop of [process_csv], with the calls of
    [generate_image] that have returned so far. *)
Record pstate : Type := PState {
  current_quote : str;
  current_speaker : str;
  in_quote : bool;
  count : nat;
  images : list image_call
}.

Section Parser.

(** [self.generate_image]: returns or raises. *)
Variable generate_image : str -> str -> str -> result unit.
(** [Path(csv_path).stem] and [output_dir]. *)
Variable csv_filename : str.
Variable output_dir : str.

Definition output_path (n : nat) : str :=
  Py.path_join output_dir
    (csv_filename ++ s!"_quote_" ++ Py.fmt_03d n ++ s!".png").

(** [count += 1], the output path, the call of [generate_image], and the
    reset of the three accumulators that follows it in the blank-line and
    quoted branches. *)
Definition emit (quote speaker : str) (st : pstate) : result pstate :=
  let n := S (count st) in
  _ <- generate_image quote speaker (output_path n) ;;
  Ok (PState [] [] false n
        (images st ++ [Call quote speaker (output_path n)])).

(** The same call in the single-line branch, which leaves the
    accumulators alone. *)
Definition emit_keep (quote speaker : str) (st : pstate) : result pstate :=
  let n := S (count st) in
  _ <- generate_image quote speaker (output_path n) ;;
  Ok (PState (current_quote st) (current_speaker st) (in_quote st) n
        (images st ++ [Call quote speaker (output_path n)])).

(** [current_quote += "\n" + piece if current_quote else piece] *)
Definition append_piece (cq piece : str) : str :=
  cq ++ (if Py.truthy cq then Py.NL :: piece else piece).

(** [in_quote = True] *)
Definition enter_quote (st : pstate) : pstate :=
  PState (current_quote st) (current_speaker st) true (count st) (images st).

(** The body of the loop for one line after the header. *)
Definition step (st : pstate) (line : str) : result pstate :=
  if negb (Py.truthy (Py.strip line)) then
    if Py.truthy (Py.strip (current_quote st)) then
      emit (Py.strip (current_quote st)) (current_speaker st) st
    else Ok st
  else
    let opens := Py.startswith line [Py.DQUOTE] in
    let st := if opens then enter_quote st else st in
    let line := if opens then Py.drop_first line else line in
    if in_quote st then
      if Py.contains [Py.DQUOTE; Py.COMMA] line
         || Py.endswith line [Py.DQUOTE] then
        if Py.contains [Py.DQUOTE; Py.COMMA] line then
          match Py.rsplit1 [Py.DQUOTE; Py.COMMA] line with
          | [quote_part; speaker_part] =>
              let cq := append_piece (current_quote st) quote_part in
              emit (Py.strip cq) (Py.strip speaker_part) st
          | _ => Raise ValueError
          end
        else
          let cq := append_piece (current_quote st) (Py.drop_last line) in
          emit (Py.strip cq) (current_speaker st) st
      else
        Ok (PState (append_piece (current_quote st) line)
              (current_speaker st) (in_quote st) (count st) (images st))
    else
      if Py.contains [Py.COMMA] line then
        let parts := Py.rsplit1 [Py.COMMA] line in
        let quote := Py.strip (nth 0 parts []) in
        let speaker :=
          if (1 <? length parts) then Py.strip (nth 1 parts []) else [] in
        if Py.truthy quote then emit_keep quote speaker st else Ok st
      else Ok st.

(** The [for] loop: it stops at the first exception, and reports the
    state it had reached. *)
Fixpoint run (st : pstate) (lines : list str) : pstate * result unit :=
  match lines with
  | [] => (st, Ok tt)
  | line :: rest =>
      match step st line with
      | Ok st' => run st' rest
      | Raise e => (st, Raise e)
      end
  end.

Definition initial : pstate := PState [] [] false 0 [].

(** The parser on the lines of the file: the first line is the header,
    the others go through [step], and a quote still in the buffer at the
    end is emitted.  The result is the list of images written and either
    the returned count or the exception that left [process_csv]. *)
Definition process_lines (lines : list str) : list image_call * result nat :=
  match run initial (tl lines) with
  | (st, Raise e) => (images st, Raise e)
  | (st, Ok _) =>
      if Py.truthy (Py.strip (current_quote st)) then
        match emit (Py.strip (current_quote st)) (current_speaker st) st with
        | Ok st' => (images st', Ok (count st'))
        | Raise e => (images st, Raise e)
        end
      else (images st, Ok (count st))
  end.

(** [process_csv] on the content read from the file. *)
Definition process_csv (content : str) : list image_call * result nat :=
  process_lines (Py.split_nl content).

End Parser.

(** ** Binary floating point

    The source multiplies by the literals [0.9], [0.4], [1.3], [0.02] and
    [0.05] and divides integers; Python does this in IEEE binary64 with
    rounding to nearest, ties to even.  A finite value is kept as
    [man * 2^exp]; every operation computes the exact result and rounds it
    to 53 significant bits.  Overflow and subnormal numbers are out of the
    model: the quantities are pixel counts and character counts. *)

Module Float.

Record t : Type := F { man : Z; exp : Z }.

(** Rounding to 53 significant bits, to nearest, ties to even. *)
Definition round (x : t) : t :=
  let a := Z.abs (man x) in
  let k := Z.log2 a in
  if (k <? 53)%Z then x
  else
    let sh := (k - 52)%Z in
    let q := Z.shiftr a sh in
    let r := (a - Z.shiftl q sh)%Z in
    let half := Z.shiftl 1 (sh - 1) in
    let q' := if (half <? r)%Z || ((r =? half)%Z && Z.odd q)
              then (q + 1)%Z else q in
    F (Z.sgn (man x) * q') (exp x + sh).

(** [float(z)] *)
Definition of_int (z : Z) : t := round (F z 0).

Definition mul (x y : t) : t :=
  round (F (man x * man y) (exp x + exp y)).

Definition add (x y : t) : t :=
  let e := Z.min (exp x) (exp y) in
  round (F (man x * 2 ^ (exp x - e) + man y * 2 ^ (exp y - e)) e).

(** [a / b] for integers [a] and [b <> 0]: the quotient correctly rounded.
    The exact quotient is cut after at least 63 bits and a sticky bit
    records a remainder, which leaves every rounding decision as it is. *)
Definition div_int (a b : Z) : t :=
  let s := (64 + Z.log2 (Z.abs b))%Z in
  let n := (Z.abs a * 2 ^ s)%Z in
  let q := (n / Z.abs b)%Z in
  let sticky := if (n mod Z.abs b =? 0)%Z then 0%Z else 1%Z in
  round (F (Z.sgn a * Z.sgn b * (2 * q + sticky)) (- s - 1)).

(** [int(x)]: truncation towards zero. *)
Definition trunc (x : t) : Z :=
  if (0 <=? exp x)%Z then (man x * 2 ^ exp x)%Z
  else Z.quot (man x) (2 ^ (- exp x)).

(** [x <= z] for an integer [z]; Python compares the two exactly. *)
Definition leb_int (x : t) (z : Z) : bool :=
  if (0 <=? exp x)%Z then (man x * 2 ^ exp x <=? z)%Z
  else (man x <=? z * 2 ^ (- exp x))%Z.

(** The literals of the source, as binary64 values. *)
Definition c0_9 : t := F 8106479329266893 (-53).
Definition c0_4 : t := F 7205759403792794 (-54).
Definition c1_3 : t := F 5854679515581645 (-52).
Definition c0_02 : t := F 5764607523034235 (-58).
Definition c0_05 : t := F 7205759403792794 (-57).

(** [int(z * c)] for an integer [z] and a literal [c]. *)
Definition int_mul (z : Z) (c : t) : Z := trunc (mul (of_int z) c).

(** [x] is a binary64 value nearest to [num / den]. *)
Definition nearest (x : t) (num den : Z) : Prop :=
  (2 ^ 52 <= man x < 2 ^ 53)%Z
  /\ (2 * Z.abs (den * man x - num * 2 ^ (- exp x)) <= den)%Z.

End Float.

(** ** The standard library's [textwrap.wrap]

    [TextWrapper] with its default options, as [_wrap_text] calls it:
    [expand_tabs], [replace_whitespace], [drop_whitespace],
    [break_long_words] and [break_on_hyphens] on, no indent, no
    [max_lines], [tabsize = 8]. *)

Module Textwrap.

(** The characters of [string.whitespace], which [TextWrapper] uses. *)
Definition is_ws (c : ascii) : bool :=
  let n := nat_of_ascii c in
  ((9 <=? n) && (n <=? 13)) || (n =? 32).

(** [text.expandtabs(8)], [col] being the current column. *)
Fixpoint expandtabs (col : nat) (s : str) : str :=
  match s with
  | [] => []
  | c :: s' =>
      if Ascii.eqb c Py.TAB then
        let incr := 8 - col mod 8 in
        repeat Py.SPACE incr ++ expandtabs (col + incr) s'
      else if Ascii.eqb c Py.NL || Ascii.eqb c Py.CR then
        c :: expandtabs 0 s'
      else c :: expandtabs (S col) s'
  end.

(** [_munge_whitespace]: tabs expanded, then every whitespace character
    replaced by a space. *)
Definition munge_whitespace (text : str) : str :=
  map (fun c => if is_ws c then Py.SPACE else c) (expandtabs 0 text).

(** [wordsep_simple_re.split]: the maximal runs of whitespace and of
    other characters.  On a text with no hyphen, [wordsep_re], which
    [_split] uses when [break_on_hyphens] is on, cuts at the same
    places. *)
Fixpoint split_runs (s : str) : list str :=
  match s with
  | [] => []
  | c :: s' =>
      match split_runs s' with
      | (d :: r) :: rest =>
          if Bool.eqb (is_ws c) (is_ws d) then (c :: d :: r) :: rest
          else [c] :: (d :: r) :: rest
      | [] :: rest => [c] :: rest
      | [] => [[c]]
      end
  end.

(** [chunk.strip() == ''] *)
Definition blank (chunk : str) : bool := negb (Py.truthy (Py.strip chunk)).

(** The inner [while] of [_wrap_chunks]: chunks are taken while they fit
    on the current line. *)
Fixpoint fill (width : Z) (chunks cur_line : list str) (cur_len : Z)
  : list str * Z * list str :=
  match chunks with
  | [] => (cur_line, cur_len, [])
  | c :: rest =>
      if (cur_len + Py.len c <=? width)%Z
      then fill width rest (cur_line ++ [c]) (cur_len + Py.len c)
      else (cur_line, cur_len, chunks)
  end.

(** [_handle_long_word], the next chunk being [chunk]: as much of it as
    fits goes on the current line, cut after the last hyphen inside the
    room left when non-hyphens come before that hyphen, and the rest of
    the chunk stays first in line. *)
Definition handle_long_word (chunk : str) (rest cur_line : list str)
    (cur_len width : Z) : list str * list str :=
  let space_left := if (width <? 1)%Z then 1%Z else (width - cur_len)%Z in
  let hyphen := Py.rfind_char Py.HYPHEN (Py.slice_to chunk space_left) in
  let end_ :=
    if (space_left <? Py.len chunk)%Z && (0 <? hyphen)%Z
       && existsb (fun c => negb (Ascii.eqb c Py.HYPHEN))
            (Py.slice_to chunk hyphen)
    then (hyphen + 1)%Z else space_left in
  (cur_line ++ [Py.slice_to chunk end_], Py.slice_from chunk end_ :: rest).

(** [del cur_line[-1]] when the last chunk of the line is blank. *)
Definition drop_trailing_blank (cur_line : list str) : list str :=
  match rev cur_line with
  | last :: front => if blank last then rev front else cur_line
  | [] => cur_line
  end.

(** One turn of the outer [while] of [_wrap_chunks]: the chunks left and
    the lines so far after it. *)
Definition wrap_line (width : Z) (c0 : str) (rest0 lines : list str)
  : list str * list str :=
  let chunks1 :=
    match lines with
    | _ :: _ => if blank c0 then rest0 else c0 :: rest0
    | [] => c0 :: rest0
    end in
  let '(cur_line, cur_len, chunks2) := fill width chunks1 [] 0%Z in
  let '(cur_line, chunks3) :=
    match chunks2 with
    | c :: rest =>
        if (width <? Py.len c)%Z
        then handle_long_word c rest cur_line cur_len width
        else (cur_line, chunks2)
    | [] => (cur_line, chunks2)
    end in
  let cur_line := drop_trailing_blank cur_line in
  (chunks3,
   match cur_line with
   | _ :: _ => lines ++ [concat cur_line]
   | [] => lines
   end).

(** The outer [while chunks:].  Every turn removes a chunk or shortens
    the first one, so [weight chunks] turns are enough
    ([wrap_loop_fuel] below). *)
Fixpoint wrap_loop (fuel : nat) (width : Z) (chunks lines : list str)
  : list str :=
  match chunks with
  | [] => lines
  | c0 :: rest0 =>
      match fuel with
      | O => lines
      | S fuel' =>
          let '(chunks', lines') := wrap_line width c0 rest0 lines in
          wrap_loop fuel' width chunks' lines'
      end
  end.

Definition weight (chunks : list str) : nat :=
  fold_right (fun c n => S (length c) + n) 0 chunks.

(** [_wrap_chunks]: a width below 1 is refused. *)
Definition wrap_chunks (width : Z) (chunks : list str) : result (list str) :=
  if (width <=? 0)%Z then Raise ValueError
  else Ok (wrap_loop (weight chunks) width chunks []).

Section Wrap.

(** [wordsep_re.split]: how a munged text is cut into chunks. *)
Variable split : str -> list str.

(** [_split_chunks]: empty chunks are left out. *)
Definition split_chunks (text : str) : list str :=
  filter Py.truthy (split (munge_whitespace text)).

(** [textwrap.wrap(text, width=width)] *)
Definition wrap (text : str) (width : Z) : result (list str) :=
  wrap_chunks width (split_chunks text).

End Wrap.

End Textwrap.

(** ** Fonts *)

(** A font object: [ImageFont.truetype(path, size)] or
    [ImageFont.load_default()]. *)
Inductive font : Type :=
| Truetype (path : str) (size : Z)
| Default.

(** What [_calculate_font_size] returns, with the two sizes it asked the
    fonts at: the value of [quote_font_size] (or [min_font_size]) and the
    argument of [_get_speaker_font]. *)
Record layout : Type := Layout {
  quote_font_size : Z;
  quote_font : font;
  speaker_font_size : Z;
  speaker_font : font;
  lines : list str
}.

Section Generator.

(** [font.getbbox(text)[2]] and [font.getbbox(text)[3]]. *)
Variable bbox_right : font -> str -> Z.
Variable bbox_bottom : font -> str -> Z.
(** Whether [ImageFont.truetype(path, size)] returns. *)
Variable truetype_loads : str -> Z -> bool.
(** [self.speaker_font_path] *)
Variable speaker_font_path : option str.
(** [wordsep_re.split] of [textwrap]. *)
Variable split : str -> list str.

(** [_get_random_font(size)], [drawn] being what
    [random.choice(self.available_fonts)] gave. *)
Definition _get_random_font (drawn : option str) (size : Z) : font :=
  match drawn with
  | None => Default
  | Some font_path =>
      if truetype_loads font_path size then Truetype font_path size
      else Default
  end.

(** [_get_speaker_font(size)] *)
Definition _get_speaker_font (size : Z) : font :=
  match speaker_font_path with
  | Some p =>
      if Py.truthy p && truetype_loads p size then Truetype p size
      else Default
  | None => Default
  end.

(** *** The text wrapper: [_wrap_text] *)

Section WrapText.

Variable fnt : font.
Variable max_width : Z.
Variable paragraph : str.

(** The loop [for line in wrapped:].  It runs over the list [wrapped]
    was bound to when the loop started; inside, [chars_per_line] and
    [wrapped] are rebound and [line] is appended to [final_wrapped]. *)
Fixpoint adjust (iter : list str) (chars_per_line : Z)
    (wrapped final_wrapped : list str)
  : result (Z * list str * list str) :=
  match iter with
  | [] => Ok (chars_per_line, wrapped, final_wrapped)
  | line :: rest =>
      if (max_width <? bbox_right fnt line)%Z && (10 <? Py.len line)%Z
      then
        let chars_per_line := Float.int_mul chars_per_line Float.c0_9 in
        wrapped <- Textwrap.wrap split paragraph chars_per_line ;;
        adjust rest chars_per_line wrapped (final_wrapped ++ [line])
      else adjust rest chars_per_line wrapped (final_wrapped ++ [line])
  end.

(** The body of the loop over paragraphs for a paragraph that is not
    blank: the lines it adds to [lines]. *)
Definition wrap_paragraph : result (list str) :=
  let avg_char_width := bbox_right fnt (s!"x") in
  if (avg_char_width =? 0)%Z then Raise ZeroDivisionError
  else
    let chars_per_line :=
      Z.max 10 (Float.trunc (Float.div_int max_width avg_char_width)) in
    wrapped <- Textwrap.wrap split paragraph chars_per_line ;;
    st <- adjust wrapped chars_per_line wrapped [] ;;
    let '(_, wrapped, final_wrapped) := st in
    Ok (match final_wrapped with
        | _ :: _ => final_wrapped
        | [] => wrapped
        end).

End WrapText.

Fixpoint wrap_paragraphs (fnt : font) (max_width : Z)
    (paragraphs lines : list str) : result (list str) :=
  match paragraphs with
  | [] => Ok lines
  | paragraph :: rest =>
      if negb (Py.truthy (Py.strip paragraph))
      then wrap_paragraphs fnt max_width rest (lines ++ [[]])
      else
        ls <- wrap_paragraph fnt max_width paragraph ;;
        wrap_paragraphs fnt max_width rest (lines ++ ls)
  end.

Definition _wrap_text (text : str) (fnt : font) (max_width : Z)
  : result (list str) :=
  wrap_paragraphs fnt max_width (Py.split_nl text) [].

(** *** The layout fitter: [_calculate_font_size] *)

(** [speaker and speaker.strip() and speaker.upper() != "NULL"] *)
Definition has_speaker (speaker : option str) : bool :=
  match speaker with
  | None => false
  | Some sp =>
      Py.truthy sp && Py.truthy (Py.strip sp)
      && negb (Py.eqb_str (Py.upper sp) (s!"NULL"))
  end.

Section Fit.

Variable text : str.
Variable speaker : option str.
Variable max_width max_height : Z.
(** The draws of [random.choice(self.available_fonts)], in order. *)
Variable choice : nat -> option str.

(** [total_text_height <= max_height] for the fonts and lines of one
    turn of the loop. *)
Definition fits (qf sf : font) (ls : list str) : bool :=
  let line_height :=
    Float.mul (Float.of_int (bbox_bottom qf (s!"Ay"))) Float.c1_3 in
  let total_text_height :=
    Float.mul (Float.of_int (Z.of_nat (length ls))) line_height in
  let total_text_height :=
    if has_speaker speaker then
      match speaker with
      | Some sp =>
          Float.add total_text_height
            (Float.of_int (bbox_bottom sf sp * 2))
      | None => total_text_height
      end
    else total_text_height in
  Float.leb_int total_text_height max_height.

(** One turn of the [while] loop at [quote_font_size], the font drawn
    being [drawn]: the layout when it fits. *)
Definition try_size (drawn : option str) (quote_font_size : Z)
  : result (option layout) :=
  let qf := _get_random_font drawn quote_font_size in
  let ssize := Z.max 14 (Float.int_mul quote_font_size Float.c0_4) in
  let sf := _get_speaker_font ssize in
  ls <- _wrap_text text qf max_width ;;
  if fits qf sf ls
  then Ok (Some (Layout quote_font_size qf ssize sf ls))
  else Ok None.

(** [while quote_font_size >= min_font_size:], [turn] counting the
    turns already made.  The loop makes 51 turns at most
    ([fit_loop_fuel] below); [None] is the exit without a fit. *)
Fixpoint fit_loop (fuel turn : nat) (quote_font_size : Z)
  : result (option layout) :=
  if (20 <=? quote_font_size)%Z then
    match fuel with
    | O => Ok None
    | S fuel' =>
        r <- try_size (choice turn) quote_font_size ;;
        match r with
        | Some l => Ok (Some l)
        | None => fit_loop fuel' (S turn) (quote_font_size - 2)
        end
    end
  else Ok None.

(** The code after the loop. *)
Definition fallback (drawn : option str) : result layout :=
  let min_font_size := 20%Z in
  let qf := _get_random_font drawn min_font_size in
  let ssize := Z.max 12 (Float.int_mul min_font_size Float.c0_4) in
  let sf := _get_speaker_font ssize in
  ls <- _wrap_text text qf max_width ;;
  Ok (Layout min_font_size qf ssize sf ls).

Definition _calculate_font_size : result layout :=
  r <- fit_loop 51 0 120 ;;
  match r with
  | Some l => Ok l
  | None => fallback (choice 51)
  end.

End Fit.

(** *** [generate_image] *)

(** [img.save(output_path)]: returns or raises. *)
Variable save : str -> result unit.

(** [generate_image(quote, speaker, output_path)] on a canvas of
    [width] by [height]: the layout that is drawn; the image is saved
    when a path is given. *)
Definition generate_image (width height : Z) (choice : nat -> option str)
    (quote : str) (speaker : option str) (output_path : option str)
  : result layout :=
  let margin_x := Float.int_mul width Float.c0_02 in
  let margin_y := Float.int_mul height Float.c0_05 in
  let max_width := (width - 2 * margin_x)%Z in
  let max_height := (height - 2 * margin_y)%Z in
  let quote :=
    if has_speaker speaker && negb (Py.startswith quote [Py.DQUOTE])
    then Py.DQUOTE :: quote ++ [Py.DQUOTE] else quote in
  l <- _calculate_font_size quote speaker max_width max_height choice ;;
  match output_path with
  | Some p =>
      if Py.truthy p then (_ <- save p ;; Ok l) else Ok l
  | None => Ok l
  end.

End Generator.

(** ** Font resolution: [_find_available_fonts] *)

Section Fonts.

(** [os.path.exists] *)
Variable path_exists : str -> bool.
(** [self.font_paths] and the list of identifiers ([self.FONTS]). *)
Variable font_paths : list str.
Variable FONTS : list str.

(** [for ext in [".ttf", ".TTF"]:] with its [break]: the first variant
    that exists. *)
Fixpoint first_ext (font_path font_name : str) (exts : list str)
  : option str :=
  match exts with
  | [] => None
  | ext :: rest =>
      let font_file := Py.path_join font_path (font_name ++ ext) in
      if path_exists font_file then Some font_file
      else first_ext font_path font_name rest
  end.

Definition exts : list str := [s!".ttf"; s!".TTF"].

(** What one identifier contributes in one directory. *)
Definition found_in (font_path font_name : str) : list str :=
  match first_ext font_path font_name exts with
  | Some font_file => [font_file]
  | None => []
  end.

(** [for font_name in self.FONTS:] inside one directory. *)
Fixpoint scan_names (font_path : str) (names available : list str)
  : list str :=
  match names with
  | [] => available
  | font_name :: rest =>
      match first_ext font_path font_name exts with
      | Some font_file =>
          scan_names font_path rest (available ++ [font_file])
      | None => scan_names font_path rest available
      end
  end.

(** [for font_path in self.font_paths:] *)
Fixpoint scan_paths (paths available : list str) : list str :=
  match paths with
  | [] => available
  | font_path :: rest =>
      if path_exists font_path
      then scan_paths rest (scan_names font_path FONTS available)
      else scan_paths rest available
  end.

(** The list [available] before the fallback to the default font. *)
Definition found_fonts : list str := scan_paths font_paths [].

Definition _find_available_fonts : list (option str) :=
  match found_fonts with
  | [] => [None]
  | _ :: _ => map Some found_fonts
  end.

(** [os.path.basename] *)
Definition basename (p : str) : str :=
  match Py.rpartition [Py.ch 47] p with
  | Some (_, b) => b
  | None => p
  end.

(** A resolved file is a file of the identifier [font_name]. *)
Definition file_of (font_name : str) (font_file : option str) : bool :=
  match font_file with
  | Some f => existsb (fun ext => Py.eqb_str (basename f) (font_name ++ ext)) exts
  | None => false
  end.

End Fonts.

(** The identifiers and the system directories of the source. *)
Definition FONTS : list str :=
  [s!"Agbalumo-Regular"; s!"Condiment-Regular"; s!"Courgette-Regular";
   s!"EmilysCandy-Regular"; s!"FreckleFace-Regular"; s!"GamjaFlower-Regular";
   s!"IrishGrover-Regular"; s!"Knewave-Regular"; s!"Pacifico-Regular";
   s!"ShadowsIntoLight-Regular"].

Definition system_font_paths : list str :=
  [s!"/usr/share/fonts/truetype/dejavu";
   s!"/usr/share/fonts/truetype/liberation";
   s!"/usr/share/fonts/truetype/ubuntu"].

(** [_get_font_paths], given what [find_project_root] returned. *)
Definition _get_font_paths (project_root : option str) : list str :=
  match project_root with
  | Some root =>
      Py.path_join (Py.path_join root (s!"fonts")) (s!"ttf")
      :: system_font_paths
  | None => system_font_paths
  end.

(** ** The speaker font: [_find_normal_font] *)

Section NormalFont.

Variable path_exists : str -> bool.
Variable SPEAKER_FONTS : list str.

(** [for font_name in self.SPEAKER_FONTS:] inside one directory, with the
    [return] at the first file that exists. *)
Fixpoint normal_in (font_path : str) (names : list str) : option str :=
  match names with
  | [] => None
  | font_name :: rest =>
      match first_ext path_exists font_path font_name exts with
      | Some font_file => Some font_file
      | None => normal_in font_path rest
      end
  end.

(** [_find_normal_font] over [self.font_paths]. *)
Fixpoint _find_normal_font (font_paths : list str) : option str :=
  match font_paths with
  | [] => None
  | font_path :: rest =>
      if path_exists font_path then
        match normal_in font_path SPEAKER_FONTS with
        | Some font_file => Some font_file
        | None => _find_normal_font rest
        end
      else _find_normal_font rest
  end.

End NormalFont.

Definition SPEAKER_FONTS : list str := [s!"DejaVuSans"].

(** ** More of Python's strings, and [pathlib] *)

Module PyChars.

(** [c.isalnum()] on code points below 256: the ASCII digits and letters,
    the Latin-1 letters, and the superscript digits and fractions. *)
Definition isalnum (c : ascii) : bool :=
  let n := nat_of_ascii c in
  ((48 <=? n) && (n <=? 57)) || ((65 <=? n) && (n <=? 90))
  || ((97 <=? n) && (n <=? 122))
  || (n =? 170) || (n =? 178) || (n =? 179) || (n =? 181) || (n =? 185)
  || (n =? 186) || ((188 <=? n) && (n <=? 190))
  || ((192 <=? n) && (n <=? 214)) || ((216 <=? n) && (n <=? 246))
  || ((248 <=? n) && (n <=? 255)).

(** [c.lower()] on the ASCII letters; a character outside ASCII has no
    ASCII lower case among the code points below 256. *)
Definition lower_char (c : ascii) : ascii :=
  let n := nat_of_ascii c in
  if (65 <=? n) && (n <=? 90) then ascii_of_nat (n + 32) else c.

Definition lower (s : str) : str := map lower_char s.

(** [s.strip(chars)] for a one-character [chars]. *)
Fixpoint lstrip_char (x : ascii) (s : str) : str :=
  match s with
  | c :: s' => if Ascii.eqb c x then lstrip_char x s' else s
  | [] => []
  end.

Definition strip_char (x : ascii) (s : str) : str :=
  rev (lstrip_char x (rev (lstrip_char x s))).

Definition DOT : ascii := Py.ch 46.
Definition SLASH : ascii := Py.ch 47.
Definition UNDERSCORE : ascii := Py.ch 95.

(** The number a string of decimal digits stands for. *)
Definition decimal (s : str) : option nat :=
  option_map Nat.of_uint (NilEmpty.uint_of_string (string_of_list_ascii s)).

End PyChars.

Module Pathlib.

(** [PurePath.suffix] and [PurePath.stem] of a file name (CPython 3.11):
    the name is cut at its last dot when that dot is neither the first nor
    the last character. *)
Definition cut (name : str) : option Z :=
  let i := Py.rfind_char PyChars.DOT name in
  if (0 <? i)%Z && (i <? Py.len name - 1)%Z then Some i else None.

Definition suffix (name : str) : str :=
  match cut name with
  | Some i => Py.slice_from name i
  | None => []
  end.

Definition stem (name : str) : str :=
  match cut name with
  | Some i => Py.slice_to name i
  | None => name
  end.

(** A resolved absolute path: the names of its components below the
    root. *)
Definition path : Type := list str.

Section ProjectRoot.

(** [Path.exists] *)
Variable exists_ : path -> bool.

Definition has_marker (dir : path) : bool :=
  exists_ (dir ++ [s!"pyproject.toml"]).

(** The loop of [find_project_root] over [[current] + list(current.parents)],
    the directory being given by its components in reverse. *)
Fixpoint walk_up (reversed : list str) : option path :=
  if has_marker (rev reversed) then Some (rev reversed)
  else match reversed with
       | [] => None
       | _ :: up => walk_up up
       end.

(** [find_project_root(start_path)], [start] being the resolved
    [start_path]. *)
Definition find_project_root (start : path) : option path :=
  walk_up (rev start).

End ProjectRoot.

End Pathlib.

(** ** [generate_adhoc] *)

(** [safe_quote]: the first 20 characters, every character that is not
    alphanumeric replaced by an underscore, the underscores at both ends
    removed. *)
Definition safe_quote (quote : str) : str :=
  PyChars.strip_char PyChars.UNDERSCORE
    (map (fun c => if PyChars.isalnum c then c else PyChars.UNDERSCORE)
       (Py.slice_to quote 20)).

Definition adhoc_filename (quote : str) : str :=
  s!"adhoc_" ++ safe_quote quote ++ s!".png".

Inductive adhoc_outcome : Type :=
| EmptyQuote
| NoProjectRoot
| Generated (quote speaker output_path : str)
| AdhocRaised (e : exn).

(** [generate_adhoc], given the two lines typed ([typed_speaker] is read
    only when the quote is not empty), what [find_project_root] returns
    and [generator.generate_image]. *)
Definition generate_adhoc
    (generate_image : str -> str -> str -> result unit)
    (project_root : option str) (typed_quote typed_speaker : str)
  : adhoc_outcome :=
  let quote := Py.strip typed_quote in
  if negb (Py.truthy quote) then EmptyQuote
  else
    let speaker := Py.strip typed_speaker in
    match project_root with
    | None => NoProjectRoot
    | Some root =>
        let output_dir := Py.path_join root (s!"output") in
        let output_path := Py.path_join output_dir (adhoc_filename quote) in
        match generate_image quote speaker output_path with
        | Ok _ => Generated quote speaker output_path
        | Raise e => AdhocRaised e
        end
    end.

(** ** [generate_from_folder] *)

Inductive folder_outcome : Type :=
| FolderNoProjectRoot
| NoDataDirectory
| NoCsvFiles
| FolderDone (total_images : nat) (written : list image_call)
| FolderRaised (e : exn) (written : list image_call).

Section Folder.

Variable generate_image : str -> str -> str -> result unit.

(** [csv_files]: the entries of the data directory whose suffix is
    [.csv], as names. *)
Definition csv_files (names : list str) : list str :=
  filter (fun name => Py.eqb_str (Pathlib.suffix name) (s!".csv")) names.

(** The loop over [csv_files]; [content] gives what each file holds. *)
Fixpoint process_files (output_dir : str) (content : str -> str)
    (files : list str) (total_images : nat) (written : list image_call)
  : folder_outcome :=
  match files with
  | [] => FolderDone total_images written
  | name :: rest =>
      match process_csv generate_image (Pathlib.stem name) output_dir
              (content name) with
      | (imgs, Ok n) =>
          process_files output_dir content rest (total_images + n)
            (written ++ imgs)
      | (imgs, Raise e) => FolderRaised e (written ++ imgs)
      end
  end.

(** [generate_from_folder], given what [find_project_root] returns,
    whether the data directory exists, and its entries. *)
Definition generate_from_folder (project_root : option str)
    (data_dir_exists : bool) (names : list str) (content : str -> str)
  : folder_outcome :=
  match project_root with
  | None => FolderNoProjectRoot
  | Some root =>
      if negb data_dir_exists then NoDataDirectory
      else match csv_files names with
           | [] => NoCsvFiles
           | files =>
               process_files (Py.path_join root (s!"output")) content
                 files 0 []
           end
  end.

End Folder.

(** ** [rotate_images] *)

Inductive rotate_outcome : Type :=
| RotateNoProjectRoot
| DirectoryNotFound
| NoFiles
| Rotated (success_count error_count : nat) (saved : list str).

Section Rotate.

(** Opening, rotating by 180 degrees and saving one file: returns or
    raises. *)
Variable rotate_file : str -> result unit.

Definition extensions : list str :=
  [s!".png"; s!".jpg"; s!".jpeg"; s!".bmp"; s!".tiff"].

(** [file_path.suffix.lower() in extensions] *)
Definition is_image (name : str) : bool :=
  existsb (Py.eqb_str (PyChars.lower (Pathlib.suffix name))) extensions.

(** The loop over [files], with the files saved so far. *)
Fixpoint rotate_loop (files : list str) (success_count error_count : nat)
    (saved : list str) : nat * nat * list str :=
  match files with
  | [] => (success_count, error_count, saved)
  | name :: rest =>
      if is_image name then
        match rotate_file name with
        | Ok _ => rotate_loop rest (S success_count) error_count
                    (saved ++ [name])
        | Raise _ => rotate_loop rest success_count (S error_count) saved
        end
      else rotate_loop rest success_count error_count saved
  end.

(** [rotate_images(directory)]: [project_root] is what
    [find_project_root] returns when no directory is given, [files] the
    regular files of the directory. *)
Definition rotate_images (directory project_root : option str)
    (directory_exists : bool) (files : list str) : rotate_outcome :=
  match directory, project_root with
  | None, None => RotateNoProjectRoot
  | _, _ =>
      if negb directory_exists then DirectoryNotFound
      else match files with
           | [] => NoFiles
           | _ :: _ =>
               let '(success_count, error_count, saved) :=
                 rotate_loop files 0 0 [] in
               Rotated success_count error_count saved
           end
  end.

End Rotate.

(** ** Words used to state the properties of the parser *)

(** The line without the quote mark it starts with, if any. *)
Definition unquote (line : str) : str :=
  if Py.startswith line [Py.DQUOTE] then Py.drop_first line else line.

(** The line holds a closing pattern: a quote mark followed by the
    delimiter, or a quote mark at its end. *)
Definition closes (line : str) : bool :=
  Py.contains [Py.DQUOTE; Py.COMMA] line || Py.endswith line [Py.DQUOTE].

Definition nonblank (line : str) : Prop := Py.truthy (Py.strip line) = true.

(** How a line that closes a quoted field splits into the last piece of
    the quote and the speaker, [kept] being the speaker accumulated so
    far. *)
Inductive closing (kept : str) (line : str) : str -> str -> Prop :=
| close_delimiter (quote_part speaker_part : str) :
    line = quote_part ++ [Py.DQUOTE; Py.COMMA] ++ speaker_part ->
    Py.contains [Py.DQUOTE; Py.COMMA] speaker_part = false ->
    closing kept line quote_part (Py.strip speaker_part)
| close_bare :
    Py.contains [Py.DQUOTE; Py.COMMA] line = false ->
    Py.endswith line [Py.DQUOTE] = true ->
    closing kept line (Py.drop_last line) kept.

(** The characters-per-line budget of [_wrap_text] for a font and a
    maximal width. *)
Definition budget (bbox_right : font -> str -> Z) (fnt : font)
    (max_width : Z) : Z :=
  Z.max 10 (Float.trunc (Float.div_int max_width (bbox_right fnt (s!"x")))).

(** The characters of a text that are not whitespace, in order. *)
Definition nonspace (text : str) : str :=
  filter (fun c => negb (Py.isspace c)) text.

(** The images are numbered from 1 in the order they are written, and
    [count] is their number. *)
Definition numbered (csv_filename output_dir : str) (st : pstate) : Prop :=
  count st = length (images st)
  /\ map call_path (images st)
     = map (output_path csv_filename output_dir) (seq 1 (count st)).

(** Outside a quoted field the accumulators are empty, and the speaker
    accumulator is empty at every line. *)
Definition tidy (st : pstate) : Prop :=
  current_speaker st = []
  /\ (in_quote st = false -> current_quote st = []).

(** The images written, and one more when the buffer holds something. *)
Definition owed (st : pstate) : nat :=
  length (images st) + (if Py.truthy (current_quote st) then 1 else 0).

(** A plain line for a quote and a speaker, and the image it gives as the
    image number [n]. *)
Definition plain_line (record : str * str) : str :=
  fst record ++ [Py.COMMA] ++ snd record.

Definition plain_image (csv_filename output_dir : str)
    (numbered_record : nat * (str * str)) : image_call :=
  let '(n, (quote, speaker)) := numbered_record in
  Call (Py.strip quote) (Py.strip speaker)
    (output_path csv_filename output_dir n).

Definition plain_record (record : str * str) : Prop :=
  nonblank (plain_line record)
  /\ Py.startswith (plain_line record) [Py.DQUOTE] = false
  /\ Py.contains [Py.COMMA] (snd record) = false
  /\ Py.truthy (Py.strip (fst record)) = true.

(** ** Inputs of the examples *)

(** A renderer that never fails. *)
Definition renders (quote speaker path : str) : result unit := Ok tt.

(** A renderer whose [img.save] fails for one output path. *)
Definition save_fails_at (bad : str) (quote speaker path : str)
  : result unit :=
  if Py.eqb_str path bad then Raise OSError else Ok tt.

(** A font whose glyphs grow with the size asked: an ["x"] is half the
    size wide, a space a quarter, every other glyph five sixths, and a line
    is as high as the size.  The default font is the fixed 6 by 11 bitmap
    font. *)
Definition glyph_width (fnt : font) (c : ascii) : Z :=
  match fnt with
  | Truetype _ size =>
      if Ascii.eqb c "x"%char then size / 2
      else if Ascii.eqb c Py.SPACE then size / 4
      else 5 * size / 6
  | Default => 6
  end%Z.

Definition text_width (fnt : font) (text : str) : Z :=
  fold_right (fun c w => (glyph_width fnt c + w)%Z) 0%Z text.

Definition text_height (fnt : font) (text : str) : Z :=
  match fnt with
  | Truetype _ size => size
  | Default => 11%Z
  end.

Definition every_font_loads (path : str) (size : Z) : bool := true.

Definition pacifico : str := s!"fonts/ttf/Pacifico-Regular.ttf".
Definition dejavu : str := s!"/usr/share/fonts/truetype/dejavu/DejaVuSans.ttf".

Definition always_pacifico (turn : nat) : option str := Some pacifico.

(** [_wrap_text] and [_calculate_font_size] of a generator that found
    these two fonts. *)
Definition wrap_text_example : str -> font -> Z -> result (list str) :=
  _wrap_text text_width Textwrap.split_runs.

Definition fit_example (text : str) (speaker : option str)
    (max_width max_height : Z) : result layout :=
  _calculate_font_size text_width text_height every_font_loads (Some dejavu)
    Textwrap.split_runs text speaker max_width max_height always_pacifico.

(** [generate_image] of a generator with the default canvas of 800 by
    600 that found these two fonts and can always save, as [process_csv]
    calls it. *)
Definition generate_image_example (quote speaker path : str) : result unit :=
  _ <- generate_image text_width text_height every_font_loads (Some dejavu)
         Textwrap.split_runs (fun _ => Ok tt) 800 600 always_pacifico
         quote (Some speaker) (Some path) ;;
  Ok tt.

(** Eleven times the same two words. *)
Definition shouted_quote : str :=
  concat (repeat (s!"HELLO WORLD ") 11).

(** Thirty short lines. *)
Definition long_poem : str :=
  concat (repeat (s!"and miles to go" ++ [Py.NL]) 29) ++ s!"before I sleep".

(** A file system with the same font in the project directory and in a
    system directory. *)
Definition two_copies (path : str) : bool :=
  existsb (Py.eqb_str path)
    [s!"/home/user/quotes/fonts/ttf";
     s!"/home/user/quotes/fonts/ttf/Pacifico-Regular.ttf";
     s!"/usr/share/fonts/truetype/ubuntu";
     s!"/usr/share/fonts/truetype/ubuntu/Pacifico-Regular.ttf"].

(** A font file without glyphs: every text has the width 0. *)
Definition no_glyphs (fnt : font) (text : str) : Z := 0%Z.

(** [rotate_file] returns for this file. *)
Definition rotates (rotate_file : str -> result unit) (name : str) : bool :=
  match rotate_file name with
  | Ok _ => true
  | Raise _ => false
  end.

(** A rotation that fails for the files of one name. *)
Definition fails_on (bad : str) (name : str) : result unit :=
  if Py.eqb_str name bad then Raise OSError else Ok tt.

(** * Properties *)

(** ** Python strings *)

Module PyFacts.

Import Py.

Lemma startswith_nil (s : str) : startswith s [] = true.
Proof. now destruct s. Qed.

Lemma startswith_app (p r : str) : startswith (p ++ r) p = true.
Proof.
  induction p as [|a p IH]; simpl; [apply startswith_nil|].
  now rewrite Ascii.eqb_refl, IH.
Qed.

Lemma startswith_inv (p s : str) :
  startswith s p = true -> s = p ++ skipn (length p) s.
Proof.
  revert s; induction p as [|a p IH]; intros s H; [reflexivity|].
  destruct s as [|b s]; [discriminate|]. simpl in H.
  apply andb_true_iff in H as [Hab Hs].
  apply Ascii.eqb_eq in Hab; subst b.
  simpl; f_equal; now apply IH.
Qed.

Lemma contains_cons (sep : str) (c : ascii) (s : str) :
  contains sep (c :: s) = startswith (c :: s) sep || contains sep s.
Proof. reflexivity. Qed.

Lemma rpartition_cons (sep : str) (c : ascii) (s : str) :
  rpartition sep (c :: s) =
  match rpartition sep s with
  | Some (a, b) => Some (c :: a, b)
  | None =>
      if startswith (c :: s) sep
      then Some ([], skipn (length sep) (c :: s)) else None
  end.
Proof. reflexivity. Qed.

Lemma rpartition_none (sep s : str) :
  rpartition sep s = None <-> contains sep s = false.
Proof.
  induction s as [|c s IH].
  - destruct sep; simpl; split; congruence.
  - rewrite contains_cons. cbn [rpartition].
    destruct (rpartition sep s) as [[a b]|].
    + split; [discriminate|].
      intros H; apply orb_false_iff in H as [_ H].
      apply IH in H; discriminate.
    + destruct IH as [IH _]; rewrite (IH eq_refl), orb_false_r.
      destruct (startswith (c :: s) sep); split; congruence.
Qed.

Lemma contains_rpartition (sep s : str) :
  contains sep s = true -> exists a b, rpartition sep s = Some (a, b).
Proof.
  intros H. destruct (rpartition sep s) as [[a b]|] eqn:E; [eauto|].
  apply rpartition_none in E; congruence.
Qed.

Lemma rpartition_app (sep s a b : str) :
  rpartition sep s = Some (a, b) -> s = a ++ sep ++ b.
Proof.
  revert a b; induction s as [|c s IH]; intros a b H.
  - simpl in H. destruct sep; [|discriminate].
    now injection H as <- <-.
  - cbn [rpartition] in H.
    destruct (rpartition sep s) as [[a' b']|] eqn:E.
    + injection H as <- <-. simpl. f_equal. now apply IH.
    + destruct (startswith (c :: s) sep) eqn:Hs; [|discriminate].
      injection H as <- <-. simpl. now apply startswith_inv.
Qed.

Lemma contains_skipn (sep s : str) (n : nat) :
  contains sep s = false -> contains sep (skipn n s) = false.
Proof.
  revert s; induction n as [|n IH]; intros s H; [exact H|].
  destruct s as [|c s]; [exact H|].
  simpl skipn. apply IH.
  rewrite contains_cons in H. now apply orb_false_iff in H as [_ H].
Qed.

(** The split is at the last occurrence: none is left on the right. *)
Lemma rpartition_last (sep s a b : str) :
  sep <> [] -> rpartition sep s = Some (a, b) -> contains sep b = false.
Proof.
  intros Hsep. revert a b; induction s as [|c s IH]; intros a b H.
  - simpl in H. destruct sep; [congruence|discriminate].
  - cbn [rpartition] in H.
    destruct (rpartition sep s) as [[a' b']|] eqn:E.
    + injection H as <- <-. now apply (IH a').
    + destruct (startswith (c :: s) sep) eqn:Hs; [|discriminate].
      injection H as <- <-.
      apply rpartition_none in E.
      destruct sep as [|x sep]; [congruence|].
      simpl length. simpl skipn. now apply contains_skipn.
Qed.

Lemma rsplit1_two (sep s : str) :
  contains sep s = true ->
  exists a b, rpartition sep s = Some (a, b) /\ rsplit1 sep s = [a; b].
Proof.
  intros H. destruct (contains_rpartition _ _ H) as (a & b & E).
  exists a, b. split; [exact E|]. unfold rsplit1. now rewrite E.
Qed.

End PyFacts.

(** ** The floating-point literals *)

Module FloatFacts.

Import Float.

Lemma literals_nearest :
  nearest c0_9 9 10 /\ nearest c0_4 4 10 /\ nearest c1_3 13 10
  /\ nearest c0_02 2 100 /\ nearest c0_05 5 100.
Proof. unfold nearest. cbn. repeat split; lia. Qed.

Lemma below (P : Z -> bool) (n : nat) :
  forallb P (map Z.of_nat (seq 0 n)) = true ->
  forall z, (0 <= z < Z.of_nat n)%Z -> P z = true.
Proof.
  intros H z Hz. rewrite forallb_forall in H. apply H.
  apply in_map_iff. exists (Z.to_nat z). split; [lia|].
  apply in_seq. lia.
Qed.

(** [int(c * 0.9)] is [floor(9 c / 10)] for the budgets that occur. *)
Lemma shrink_by_tenth (c : Z) :
  (0 <= c < 4000)%Z -> int_mul c c0_9 = (9 * c / 10)%Z.
Proof.
  intros H. apply Z.eqb_eq.
  apply (@below (fun c => int_mul c c0_9 =? 9 * c / 10)%Z 4000); [|exact H].
  vm_compute. reflexivity.
Qed.

(** [int(size * 0.4)] is [floor(2 size / 5)] for the sizes that occur. *)
Lemma two_fifths (size : Z) :
  (0 <= size < 200)%Z -> int_mul size c0_4 = (2 * size / 5)%Z.
Proof.
  intros H. apply Z.eqb_eq.
  apply (@below (fun c => int_mul c c0_4 =? 2 * c / 5)%Z 200); [|exact H].
  vm_compute. reflexivity.
Qed.

(** The margins of the default canvas of 800 by 600. *)
Lemma default_margins :
  int_mul 800 c0_02 = 16%Z /\ int_mul 600 c0_05 = 30%Z.
Proof. split; reflexivity. Qed.

End FloatFacts.

(** ** The record parser *)

Section ParserFacts.

Variable generate_image : str -> str -> str -> result unit.
Variable csv_filename : str.
Variable output_dir : str.

Local Abbreviation step_ := (step generate_image csv_filename output_dir).
Local Abbreviation run_ := (run generate_image csv_filename output_dir).
Local Abbreviation emit_ := (emit generate_image csv_filename output_dir).
Local Abbreviation output_path_ := (output_path csv_filename output_dir).
Local Abbreviation process_lines_ :=
  (process_lines generate_image csv_filename output_dir).

Lemma run_app (st : pstate) (l1 l2 : list str) :
  run_ st (l1 ++ l2) =
  match run_ st l1 with
  | (st', Ok _) => run_ st' l2
  | r => r
  end.
Proof.
  revert st; induction l1 as [|l l1 IH]; intros st; simpl; [reflexivity|].
  destruct (step_ st l); [apply IH|reflexivity].
Qed.

Lemma run_app_ok (st st' : pstate) (l1 l2 : list str) :
  run_ st l1 = (st', Ok tt) -> run_ st (l1 ++ l2) = run_ st' l2.
Proof. intros H. now rewrite run_app, H. Qed.

Lemma run_one (st st' : pstate) (line : str) :
  step_ st line = Ok st' -> run_ st [line] = (st', Ok tt).
Proof. intros H. cbn [run]. now rewrite H. Qed.

(** The end of [process_csv] when the loop is over with a blank buffer. *)
Lemma process_lines_done (lines : list str) (st : pstate) :
  run_ initial (tl lines) = (st, Ok tt) ->
  Py.truthy (Py.strip (current_quote st)) = false ->
  process_lines_ lines = (images st, Ok (count st)).
Proof. intros H B. unfold process_lines. now rewrite H, B. Qed.

(** An exception leaves [step] only when [generate_image] raised it, at
    the path of the next image. *)
Lemma step_raise (st : pstate) (line : str) (e : exn) :
  step_ st line = Raise e ->
  exists quote speaker,
    generate_image quote speaker (output_path_ (S (count st))) = Raise e.
Proof.
  unfold step, emit, emit_keep, rbind.
  set (gi := generate_image).
  repeat match goal with
  | |- context [if ?b then _ else _] => destruct b eqn:?
  end; try discriminate;
  repeat match goal with
  | |- context [match Py.rsplit1 ?s ?l with _ => _ end] =>
      let H := fresh in
      let a := fresh in let b := fresh in let E := fresh in
      destruct (@PyFacts.rsplit1_two s l) as (a & b & E & H);
      [assumption|rewrite H]
  end;
  match goal with
  | |- match gi ?q ?s ?p with _ => _ end = _ -> _ =>
      destruct (gi q s p) eqn:G; [discriminate|];
      intros [= <-]; exists q, s; exact G
  end.
Qed.

End ParserFacts.

Section ParserProperties.

Variable generate_image : str -> str -> str -> result unit.
Variable csv_filename : str.
Variable output_dir : str.

Local Abbreviation step_ := (step generate_image csv_filename output_dir).
Local Abbreviation run_ := (run generate_image csv_filename output_dir).
Local Abbreviation output_path_ := (output_path csv_filename output_dir).
Local Abbreviation process_lines_ :=
  (process_lines generate_image csv_filename output_dir).

Lemma rpartition_delimiter (quote_part speaker_part : str) :
  Py.contains [Py.DQUOTE; Py.COMMA] speaker_part = false ->
  Py.rpartition [Py.DQUOTE; Py.COMMA]
    (quote_part ++ [Py.DQUOTE; Py.COMMA] ++ speaker_part)
  = Some (quote_part, speaker_part).
Proof.
  intros H. induction quote_part as [|c q IH].
  - cbn [app]. rewrite PyFacts.rpartition_cons.
    assert (E : Py.rpartition [Py.DQUOTE; Py.COMMA] (Py.COMMA :: speaker_part)
                = None).
    { apply PyFacts.rpartition_none. rewrite PyFacts.contains_cons, H.
      reflexivity. }
    rewrite E.
    pose proof (PyFacts.startswith_app [Py.DQUOTE; Py.COMMA] speaker_part)
      as S. cbn [app] in S. rewrite S. reflexivity.
  - cbn [app] in *. rewrite PyFacts.rpartition_cons. now rewrite IH.
Qed.

(** A line of a quoted field that does not close it goes to the buffer. *)
Lemma step_quoted_continue (st : pstate) (line : str) :
  nonblank line ->
  in_quote st = true \/ Py.startswith line [Py.DQUOTE] = true ->
  closes (unquote line) = false ->
  step_ st line =
  Ok (PState (append_piece (current_quote st) (unquote line))
        (current_speaker st) true (count st) (images st)).
Proof.
  unfold nonblank, closes, unquote, step. intros Hnb Hq Hc.
  rewrite Hnb. cbn [negb].
  destruct (Py.startswith line [Py.DQUOTE]) eqn:Ho.
  - cbn [enter_quote in_quote current_quote current_speaker count images].
    now rewrite Hc.
  - destruct Hq as [Hq|Hq]; [|discriminate].
    now rewrite Hq, Hc.
Qed.

(** A line of a quoted field that closes it emits the record. *)
Lemma step_quoted_close (st : pstate) (line quote_part speaker : str) :
  nonblank line ->
  in_quote st = true \/ Py.startswith line [Py.DQUOTE] = true ->
  closing (current_speaker st) (unquote line) quote_part speaker ->
  step_ st line =
  emit generate_image csv_filename output_dir
    (Py.strip (append_piece (current_quote st) quote_part)) speaker st.
Proof.
  unfold nonblank, unquote, step. intros Hnb Hq Hc.
  rewrite Hnb. cbn [negb].
  assert (Hin : in_quote (if Py.startswith line [Py.DQUOTE]
                          then enter_quote st else st) = true).
  { destruct (Py.startswith line [Py.DQUOTE]); [reflexivity|].
    now destruct Hq. }
  rewrite Hin.
  assert (Hst : forall q s,
    emit generate_image csv_filename output_dir q s
      (if Py.startswith line [Py.DQUOTE] then enter_quote st else st)
    = emit generate_image csv_filename output_dir q s st).
  { intros; now destruct (Py.startswith line [Py.DQUOTE]). }
  assert (Hcq : current_quote (if Py.startswith line [Py.DQUOTE]
                               then enter_quote st else st)
                = current_quote st)
    by now destruct (Py.startswith line [Py.DQUOTE]).
  assert (Hcs : current_speaker (if Py.startswith line [Py.DQUOTE]
                                 then enter_quote st else st)
                = current_speaker st)
    by now destruct (Py.startswith line [Py.DQUOTE]).
  rewrite Hcq, Hcs.
  set (l := if Py.startswith line [Py.DQUOTE] then Py.drop_first line
            else line) in *.
  destruct Hc as [qp sp Hl Hsp | Hno Hend].
  - pose proof (@rpartition_delimiter qp sp Hsp) as R. rewrite <- Hl in R.
    assert (C : Py.contains [Py.DQUOTE; Py.COMMA] l = true).
    { destruct (Py.contains [Py.DQUOTE; Py.COMMA] l) eqn:C; [reflexivity|].
      apply PyFacts.rpartition_none in C. congruence. }
    rewrite C. cbn [orb]. unfold Py.rsplit1. rewrite R. apply Hst.
  - rewrite Hno, Hend. cbn [orb]. apply Hst.
Qed.

Lemma run_continue (st : pstate) (ls : list str) :
  in_quote st = true ->
  Forall (fun l => nonblank l /\ closes (unquote l) = false) ls ->
  run_ st ls =
  (PState (fold_left append_piece (map unquote ls) (current_quote st))
     (current_speaker st) true (count st) (images st), Ok tt).
Proof.
  revert st. induction ls as [|l ls IH]; intros st Hin Hall.
  - destruct st; simpl in *; subst; reflexivity.
  - inversion Hall as [|? ? [Hnb Hc] Hrest]; subst.
    cbn [run]. rewrite step_quoted_continue; auto.
    rewrite IH; auto.
Qed.

Lemma rpartition_comma (left right : str) :
  Py.contains [Py.COMMA] right = false ->
  Py.rpartition [Py.COMMA] (left ++ [Py.COMMA] ++ right)
  = Some (left, right).
Proof.
  intros H. induction left as [|c q IH].
  - cbn [app]. rewrite PyFacts.rpartition_cons.
    apply PyFacts.rpartition_none in H. rewrite H.
    pose proof (PyFacts.startswith_app [Py.COMMA] right) as S.
    cbn [app] in S. rewrite S. reflexivity.
  - cbn [app] in *. rewrite PyFacts.rpartition_cons. now rewrite IH.
Qed.

(** C1, as amended.  [process_csv] has no handler around
    [generate_image]: when the call for one record raises, which is the
    only way the loop body raises, the exception leaves [process_csv]
    with the images written before it, and the lines after that record
    are not processed, whatever they are. *)
Theorem process_csv_error_ends_batch
    (header : str) (before : list str) (line : str) (after : list str)
    (st : pstate) (e : exn) :
  run_ initial before = (st, Ok tt) ->
  step_ st line = Raise e ->
  process_lines_ (header :: before ++ line :: after) = (images st, Raise e)
  /\ exists quote speaker,
       generate_image quote speaker (output_path_ (S (count st))) = Raise e.
Proof.
  intros Hrun Hstep. split.
  - unfold process_lines. cbn [tl].
    rewrite run_app, Hrun. cbn [run]. now rewrite Hstep.
  - eapply step_raise; eassumption.
Qed.

(** C5, as amended.  A line that starts with a quote mark opens a quoted
    field: the mark is dropped and the line goes to the buffer; the
    following lines, as long as they are not blank and hold no closing
    pattern, are appended to the buffer, a newline before each once the
    buffer is not empty; the first line with a closing pattern gives the
    last piece and the speaker (the text after the last quote-comma
    pair, trimmed; or, for a bare closing quote mark, the speaker kept so
    far), one record with the trimmed buffer is emitted, and the parser
    is back in the scanning state with empty accumulators. *)
Theorem quoted_field_record
    (st : pstate) (l0 : str) (ls : list str) (lc : str)
    (quote_part speaker : str) :
  Py.startswith l0 [Py.DQUOTE] = true ->
  Forall (fun l => nonblank l /\ closes (unquote l) = false) (l0 :: ls) ->
  nonblank lc ->
  closing (current_speaker st) (unquote lc) quote_part speaker ->
  let text :=
    Py.strip (fold_left append_piece
                (map unquote (l0 :: ls) ++ [quote_part])
                (current_quote st)) in
  let path := output_path_ (S (count st)) in
  generate_image text speaker path = Ok tt ->
  run_ st (l0 :: ls ++ [lc]) =
  (PState [] [] false (S (count st))
     (images st ++ [Call text speaker path]), Ok tt).
Proof.
  intros Hopen Hall Hnb Hclose text path Hgen.
  inversion Hall as [|? ? [Hnb0 Hc0] Hrest]; subst.
  cbn [run]. rewrite step_quoted_continue; auto.
  rewrite run_app, run_continue; auto.
  cbn [run current_quote current_speaker count images].
  rewrite (@step_quoted_close _ lc quote_part speaker); auto.
  unfold emit, rbind.
  cbn [current_quote current_speaker count images].
  subst text path. rewrite fold_left_app in Hgen |- *.
  cbn [map fold_left] in Hgen |- *. now rewrite Hgen.
Qed.

(** C6.  In the scanning state, a line that is not blank, does not start
    with a quote mark and holds a comma is split at its last comma:
    the trimmed left part is the quote and the trimmed right part the
    speaker, and when the quote is not empty [generate_image] is called
    for the record at once, the accumulators staying as they are. *)
Theorem plain_line_record (st : pstate) (line left right : str) :
  in_quote st = false ->
  nonblank line ->
  Py.startswith line [Py.DQUOTE] = false ->
  line = left ++ [Py.COMMA] ++ right ->
  Py.contains [Py.COMMA] right = false ->
  step_ st line =
  if Py.truthy (Py.strip left) then
    _ <- generate_image (Py.strip left) (Py.strip right)
           (output_path_ (S (count st))) ;;
    Ok (PState (current_quote st) (current_speaker st) false
          (S (count st))
          (images st ++ [Call (Py.strip left) (Py.strip right)
                           (output_path_ (S (count st)))]))
  else Ok st.
Proof.
  unfold nonblank, step. intros Hin Hnb Hq Hl Hr.
  rewrite Hnb, Hq, Hin. cbn [negb].
  pose proof (@rpartition_comma left right Hr) as R. rewrite <- Hl in R.
  assert (C : Py.contains [Py.COMMA] line = true).
  { destruct (Py.contains [Py.COMMA] line) eqn:C; [reflexivity|].
    apply PyFacts.rpartition_none in C. congruence. }
  rewrite C. unfold Py.rsplit1. rewrite R. cbn [nth length Nat.ltb Nat.leb].
  unfold emit_keep. now rewrite Hin.
Qed.

(** C10.  In the scanning state, a line that is not blank, does not
    start with a quote mark and holds no comma changes nothing: no
    call of [generate_image], no exception, and the buffer, the speaker,
    the count and the images are as before. *)
Theorem plain_line_without_comma_ignored (st : pstate) (line : str) :
  in_quote st = false ->
  nonblank line ->
  Py.startswith line [Py.DQUOTE] = false ->
  Py.contains [Py.COMMA] line = false ->
  step_ st line = Ok st.
Proof.
  unfold nonblank, step. intros Hin Hnb Hq Hc.
  now rewrite Hnb, Hq, Hin, Hc.
Qed.

End ParserProperties.

(** C1, counterexample.  The image of the first record cannot be saved:
    [process_csv] ends with that exception, no image is written for the
    second record, and no count is returned. *)
Lemma process_csv_failure_not_isolated :
  process_lines (save_fails_at (s!"output/quotes_quote_001.png"))
    (s!"quotes") (s!"output")
    [s!"quote,speaker"; s!"Know thyself, Socrates";
     s!"Be yourself, Oscar Wilde"]
  = ([], Raise OSError).
Proof. vm_compute. reflexivity. Qed.

Lemma process_csv_error_ends_batch_witness :
  process_lines (save_fails_at (s!"output/quotes_quote_001.png"))
    (s!"quotes") (s!"output")
    (s!"quote,speaker" :: [] ++ s!"Know thyself, Socrates"
       :: [s!"Be yourself, Oscar Wilde"])
  = ([], Raise OSError).
Proof.
  refine (proj1 (@process_csv_error_ends_batch
    (save_fails_at (s!"output/quotes_quote_001.png")) (s!"quotes")
    (s!"output") (s!"quote,speaker") [] (s!"Know thyself, Socrates")
    [s!"Be yourself, Oscar Wilde"] initial OSError _ _)).
  - reflexivity.
  - vm_compute. reflexivity.
Defined.

(** The same with a failure of the rendering itself: the quote of the
    first record makes the wrapper raise (see
    [fitter_raises_on_wide_lines]), and the second record is never
    rendered. *)
Lemma batch_ended_by_render_error :
  process_lines generate_image_example (s!"quotes") (s!"output")
    [s!"quote,speaker"; shouted_quote ++ s!", Drill Sergeant";
     s!"Be yourself, Oscar Wilde"]
  = ([], Raise ValueError)
  /\ process_lines generate_image_example (s!"quotes") (s!"output")
       [s!"quote,speaker"; s!"Be yourself, Oscar Wilde"]
     = ([Call (s!"Be yourself") (s!"Oscar Wilde")
           (s!"output/quotes_quote_001.png")], Ok 1).
Proof. vm_compute. split; reflexivity. Qed.

(** C4, the code at the failing input.  A quoted field with nothing
    between its quote marks is not dropped: [generate_image] is called
    with the empty quote and the count goes to 1. *)
Theorem empty_quoted_field_is_rendered :
  process_lines renders (s!"quotes") (s!"output")
    [s!"quote,speaker"; [Py.DQUOTE; Py.DQUOTE] ++ s!",Socrates"]
  = ([Call [] (s!"Socrates") (s!"output/quotes_quote_001.png")], Ok 1).
Proof. vm_compute. reflexivity. Qed.

(** C5, counterexample.  A blank line inside a quoted field ends it: the
    buffer is emitted without a closing pattern, the parser is back to
    scanning, and the closing line is read as a plain line, so two
    records come out instead of one. *)
Lemma blank_line_ends_quoted_field :
  process_lines renders (s!"quotes") (s!"output")
    [s!"header"; Py.DQUOTE :: s!"Line one"; s!"";
     s!"Line two" ++ Py.DQUOTE :: s!",Mark Twain"]
  = ([Call (s!"Line one") [] (s!"output/quotes_quote_001.png");
      Call (s!"Line two" ++ [Py.DQUOTE]) (s!"Mark Twain")
        (s!"output/quotes_quote_002.png")], Ok 2).
Proof. vm_compute. reflexivity. Qed.

(** The example of C5: one record, with the text on two lines. *)
Lemma quoted_multi_line_record :
  process_lines renders (s!"quotes") (s!"output")
    [s!"header"; Py.DQUOTE :: s!"Line one";
     s!"Line two" ++ Py.DQUOTE :: s!",Mark Twain"; s!""]
  = ([Call (s!"Line one" ++ Py.NL :: s!"Line two") (s!"Mark Twain")
        (s!"output/quotes_quote_001.png")], Ok 1).
Proof.
  apply (@process_lines_done renders (s!"quotes") (s!"output") _
           (PState [] [] false 1
              [Call (s!"Line one" ++ Py.NL :: s!"Line two") (s!"Mark Twain")
                 (s!"output/quotes_quote_001.png")])); [|reflexivity].
  refine (eq_trans
    (@run_app_ok renders (s!"quotes") (s!"output") initial _
       ((Py.DQUOTE :: s!"Line one") :: []
        ++ [s!"Line two" ++ Py.DQUOTE :: s!",Mark Twain"]) [s!""]
       (@quoted_field_record renders (s!"quotes") (s!"output") initial
          (Py.DQUOTE :: s!"Line one") []
          (s!"Line two" ++ Py.DQUOTE :: s!",Mark Twain")
          (s!"Line two") (s!"Mark Twain") _ _ _ _ _)) _).
  - reflexivity.
  - repeat constructor.
  - reflexivity.
  - exact (@close_delimiter []
             (unquote (s!"Line two" ++ Py.DQUOTE :: s!",Mark Twain"))
             (s!"Line two") (s!"Mark Twain") eq_refl eq_refl).
  - reflexivity.
  - reflexivity.
Defined.

(** The example of C6: a header and one plain line give one record. *)
Lemma be_yourself_record :
  process_lines renders (s!"quotes") (s!"output")
    [s!"quote,speaker"; s!"Be yourself, Oscar Wilde"]
  = ([Call (s!"Be yourself") (s!"Oscar Wilde")
        (s!"output/quotes_quote_001.png")], Ok 1).
Proof.
  apply (@process_lines_done renders (s!"quotes") (s!"output") _
           (PState [] [] false 1
              [Call (s!"Be yourself") (s!"Oscar Wilde")
                 (s!"output/quotes_quote_001.png")])); [|reflexivity].
  apply run_one.
  refine (eq_trans
    (@plain_line_record renders (s!"quotes") (s!"output") initial
       (s!"Be yourself, Oscar Wilde") (s!"Be yourself") (s!" Oscar Wilde")
       _ _ _ _ _) _); reflexivity.
Defined.

(** The same record from the content of the file, as [process_csv] reads
    it. *)
Lemma be_yourself_from_content :
  process_csv renders (s!"quotes") (s!"output")
    (s!"quote,speaker" ++ Py.NL :: s!"Be yourself, Oscar Wilde" ++ [Py.NL])
  = ([Call (s!"Be yourself") (s!"Oscar Wilde")
        (s!"output/quotes_quote_001.png")], Ok 1).
Proof. vm_compute. reflexivity. Qed.

Lemma plain_line_without_comma_ignored_witness :
  step renders (s!"quotes") (s!"output") initial (s!"Know thyself")
  = Ok initial.
Proof.
  apply plain_line_without_comma_ignored; reflexivity.
Defined.

(** ** Font resolution *)

Section FontsProperties.

Variable path_exists : str -> bool.
Variable FONTS : list str.

Local Abbreviation found_in_ := (found_in path_exists).

Lemma scan_names_flat_map (font_path : str) (names available : list str) :
  scan_names path_exists font_path names available =
  available ++ flat_map (found_in_ font_path) names.
Proof.
  revert available. induction names as [|n names IH]; intros available.
  - simpl. now rewrite app_nil_r.
  - cbn [scan_names flat_map]. unfold found_in at 1.
    destruct (first_ext path_exists font_path n exts).
    + rewrite IH, <- app_assoc. reflexivity.
    + apply IH.
Qed.

Lemma scan_paths_flat_map (paths available : list str) :
  scan_paths path_exists FONTS paths available =
  available ++
  flat_map (fun d => if path_exists d then flat_map (found_in_ d) FONTS
                     else []) paths.
Proof.
  revert available. induction paths as [|d paths IH]; intros available.
  - simpl. now rewrite app_nil_r.
  - cbn [scan_paths flat_map]. destruct (path_exists d).
    + rewrite IH, scan_names_flat_map, <- app_assoc. reflexivity.
    + apply IH.
Qed.

(** C9, as amended.  Resolution goes through the search directories in
    their order and, inside each directory that exists, through the
    identifiers in their order; each pair of a directory and an
    identifier gives at most one file, the first of the variants [.ttf]
    and [.TTF] that exists there.  An identifier found in several
    directories is listed once for each of them. *)
Theorem fonts_found_per_directory (font_paths : list str) :
  found_fonts path_exists font_paths FONTS =
  flat_map (fun d => if path_exists d then flat_map (found_in_ d) FONTS
                     else []) font_paths
  /\ forall d n,
       length (found_in_ d n) <= 1
       /\ found_in_ d n =
          if path_exists (Py.path_join d (n ++ s!".ttf"))
          then [Py.path_join d (n ++ s!".ttf")]
          else if path_exists (Py.path_join d (n ++ s!".TTF"))
          then [Py.path_join d (n ++ s!".TTF")]
          else [].
Proof.
  split.
  - unfold found_fonts. now rewrite scan_paths_flat_map.
  - intros d n. unfold found_in, exts. cbn [first_ext].
    destruct (path_exists (Py.path_join d (n ++ s!".ttf")));
      [split; [apply Nat.le_refl | reflexivity]|].
    destruct (path_exists (Py.path_join d (n ++ s!".TTF")));
      split; auto.
Qed.

End FontsProperties.

(** C9, counterexample.  The same font lies in the project directory and
    in a system directory: both files are resolved, and the identifier has
    two entries in the available set. *)
Lemma font_resolved_twice :
  let available :=
    _find_available_fonts two_copies
      (_get_font_paths (Some (s!"/home/user/quotes"))) FONTS in
  available =
    [Some (s!"/home/user/quotes/fonts/ttf/Pacifico-Regular.ttf");
     Some (s!"/usr/share/fonts/truetype/ubuntu/Pacifico-Regular.ttf")]
  /\ length (filter (file_of (s!"Pacifico-Regular")) available) = 2.
Proof. vm_compute. split; reflexivity. Qed.

(** ** The text wrapper and the layout fitter at concrete inputs *)

(** C2, the code at the failing input.  At size 24 and a maximal width of
    150 the budget is 12 characters; the first line of the first wrap is
    wider than 150 and longer than 10 characters; the re-wrap at the
    budget 10 would give three lines; the wrapper returns the two lines
    of the first wrap. *)
Theorem rewrap_is_discarded :
  let fnt := Truetype pacifico 24 in
  let paragraph := s!"Never doubt yourself" in
  Textwrap.wrap Textwrap.split_runs paragraph 12
    = Ok [s!"Never doubt"; s!"yourself"]
  /\ (150 <? text_width fnt (s!"Never doubt"))%Z
     && (10 <? Py.len (s!"Never doubt"))%Z = true
  /\ Textwrap.wrap Textwrap.split_runs paragraph (Float.int_mul 12 Float.c0_9)
    = Ok [s!"Never"; s!"doubt"; s!"yourself"]
  /\ wrap_text_example paragraph fnt 150
    = Ok [s!"Never doubt"; s!"yourself"].
Proof. vm_compute. repeat split; reflexivity. Qed.

(** C3, counterexample.  With a budget of 12 characters, a word of 34
    characters is cut into three lines at character boundaries; it is not
    a line of the output. *)
Lemma long_word_is_split :
  let word := s!"Supercalifragilisticexpialidocious" in
  wrap_text_example word (Truetype pacifico 24) 150
    = Ok [s!"Supercalifra"; s!"gilisticexpi"; s!"alidocious"]
  /\ ~ In word [s!"Supercalifra"; s!"gilisticexpi"; s!"alidocious"].
Proof.
  split; [vm_compute; reflexivity|].
  cbv zeta. intros [H|[H|[H|[]]]]; vm_compute in H; discriminate.
Qed.

(** C7, the code at the failing input.  At size 120 the budget is 12
    characters and the quote wraps to eleven lines of eleven characters,
    each wider than the box; the budget is shrunk once for each of them,
    from 12 to 10, 9, ... and at the eleventh to 0, and [textwrap.wrap]
    refuses the width 0: the fitter raises instead of returning. *)
Theorem fitter_raises_on_wide_lines :
  Textwrap.wrap Textwrap.split_runs shouted_quote 12
    = Ok (repeat (s!"HELLO WORLD") 11)
  /\ wrap_text_example shouted_quote (Truetype pacifico 120) 768
    = Raise ValueError
  /\ fit_example shouted_quote None 768 540 = Raise ValueError.
Proof. vm_compute. repeat split; reflexivity. Qed.

(** C8, the code at the failing input.  Thirty lines fit at no size; the
    fallback returns the quote size 20 with the speaker size 12, which is
    not [max(14, floor(20 * 0.4)) = 14]. *)
Theorem fallback_speaker_size_is_12 :
  exists l,
    fit_example long_poem (Some (s!"Robert Frost")) 768 540 = Ok l
    /\ quote_font_size l = 20%Z
    /\ speaker_font_size l = 12%Z
    /\ Z.max 14 (Float.int_mul 20 Float.c0_4) = 14%Z.
Proof.
  eexists. split; [vm_compute; reflexivity|].
  repeat split; reflexivity.
Qed.

(** ** [textwrap.wrap]: no character is lost, no line is too long *)

Module TextwrapFacts.

Import Py Textwrap.

Lemma nonspace_app (a b : str) : nonspace (a ++ b) = nonspace a ++ nonspace b.
Proof. apply filter_app. Qed.

Lemma nonspace_lstrip (s : str) : nonspace (lstrip s) = nonspace s.
Proof.
  induction s as [|c s IH]; [reflexivity|].
  cbn [lstrip]. destruct (isspace c) eqn:E; [|reflexivity].
  rewrite IH. unfold nonspace. cbn [filter]. now rewrite E.
Qed.

Lemma lstrip_nil (s : str) : lstrip s = [] -> nonspace s = [].
Proof. intros H. now rewrite <- nonspace_lstrip, H. Qed.

Lemma nonspace_rev (s : str) : nonspace (rev s) = rev (nonspace s).
Proof.
  induction s as [|c s IH]; [reflexivity|].
  cbn [rev]. rewrite nonspace_app, IH. unfold nonspace. cbn [filter].
  destruct (negb (isspace c)); cbn [rev app]; [reflexivity|].
  now rewrite app_nil_r.
Qed.

(** A string that strips to nothing has only whitespace. *)
Lemma strip_nil (s : str) : strip s = [] -> nonspace s = [].
Proof.
  unfold strip, rstrip. intros H.
  assert (H1 : lstrip (rev (lstrip s)) = []).
  { rewrite <- (rev_involutive (lstrip (rev (lstrip s)))), H. reflexivity. }
  apply lstrip_nil in H1. rewrite nonspace_rev in H1.
  rewrite <- nonspace_lstrip.
  rewrite <- (rev_involutive (nonspace (lstrip s))), H1. reflexivity.
Qed.

Lemma falsy_nil (s : str) : truthy s = false -> s = [].
Proof. now destruct s. Qed.

Lemma blank_nonspace (c : str) : blank c = true -> nonspace c = [].
Proof.
  unfold blank. intros H. apply strip_nil, falsy_nil.
  now destruct (truthy (strip c)).
Qed.

Lemma nonspace_concat_app (a b : list str) :
  nonspace (concat (a ++ b)) = nonspace (concat a) ++ nonspace (concat b).
Proof. now rewrite concat_app, nonspace_app. Qed.

Lemma slice_join (s : str) (e : Z) : slice_to s e ++ slice_from s e = s.
Proof.
  unfold slice_to, slice_from. destruct (e <? 0)%Z; apply firstn_skipn.
Qed.

Lemma len_app (a b : str) : len (a ++ b) = (len a + len b)%Z.
Proof. unfold len. rewrite length_app. lia. Qed.

Lemma len_nonneg (a : str) : (0 <= len a)%Z.
Proof. unfold len. lia. Qed.

Lemma len_slice_to (s : str) (e : Z) :
  (0 <= e)%Z -> (len (slice_to s e) <= e)%Z.
Proof.
  intros He. unfold slice_to, len.
  destruct (e <? 0)%Z eqn:E; [lia|].
  rewrite length_firstn. lia.
Qed.

Lemma rfind_from_bound (c : ascii) (s : str) (i best : Z) :
  (best < i)%Z -> (rfind_from c s i best < i + len s)%Z.
Proof.
  revert i best. induction s as [|d s IH]; intros i best H.
  - cbn [rfind_from]. unfold len. simpl. lia.
  - cbn [rfind_from].
    assert (L : len (d :: s) = (1 + len s)%Z) by (unfold len; simpl length; lia).
    rewrite L.
    specialize (IH (i + 1)%Z (if Ascii.eqb d c then i else best)).
    destruct (Ascii.eqb d c); lia.
Qed.

Lemma rfind_char_bound (c : ascii) (s : str) : (rfind_char c s < len s)%Z.
Proof.
  unfold rfind_char.
  pose proof (@rfind_from_bound c s 0 (-1)) as H. lia.
Qed.

Lemma weight_cons (c : str) (l : list str) :
  weight (c :: l) = S (length c) + weight l.
Proof. reflexivity. Qed.

Lemma weight_app (a b : list str) : weight (a ++ b) = weight a + weight b.
Proof.
  induction a as [|c a IH]; [reflexivity|].
  cbn [app]. rewrite !weight_cons, IH. lia.
Qed.

(** The inner loop takes a prefix of the chunks that fits, and stops in
    front of a chunk that does not. *)
Lemma fill_spec (w : Z) (chunks cl : list str) (n : Z)
    (cl' : list str) (n' : Z) (rest : list str) :
  fill w chunks cl n = (cl', n', rest) ->
  exists taken,
    cl' = cl ++ taken /\ chunks = taken ++ rest
    /\ n' = (n + len (concat taken))%Z
    /\ ((n <= w)%Z -> (n' <= w)%Z)
    /\ match rest with
       | [] => True
       | c :: _ => (w < n' + len c)%Z
       end.
Proof.
  revert cl n. induction chunks as [|c chunks IH]; intros cl n H.
  - cbn [fill] in H. injection H as <- <- <-.
    exists []. rewrite app_nil_r.
    repeat split; auto; unfold len; simpl; lia.
  - cbn [fill] in H.
    destruct (n + len c <=? w)%Z eqn:E.
    + apply IH in H as (taken & -> & -> & -> & Hw & Hr).
      exists (c :: taken). rewrite <- app_assoc. cbn [app concat].
      rewrite len_app. repeat split; auto; try lia.
    + injection H as <- <- <-.
      exists []. rewrite app_nil_r.
      repeat split; auto; try (unfold len; simpl; lia).
      cbn [concat]. change (len []) with 0%Z. lia.
Qed.

Lemma drop_trailing_blank_nonspace (cl : list str) :
  nonspace (concat (drop_trailing_blank cl)) = nonspace (concat cl).
Proof.
  unfold drop_trailing_blank.
  destruct (rev cl) as [|last front] eqn:E; [reflexivity|].
  destruct (blank last) eqn:B; [|reflexivity].
  assert (C : cl = rev front ++ [last]).
  { rewrite <- (rev_involutive cl), E. reflexivity. }
  rewrite C, nonspace_concat_app. cbn [concat]. rewrite app_nil_r.
  rewrite (blank_nonspace _ B), app_nil_r. reflexivity.
Qed.

Lemma drop_trailing_blank_len (cl : list str) :
  (len (concat (drop_trailing_blank cl)) <= len (concat cl))%Z.
Proof.
  unfold drop_trailing_blank.
  destruct (rev cl) as [|last front] eqn:E; [lia|].
  destruct (blank last); [|lia].
  assert (C : cl = rev front ++ [last]).
  { rewrite <- (rev_involutive cl), E. reflexivity. }
  rewrite C, concat_app, len_app. pose proof (len_nonneg (concat [last])).
  lia.
Qed.

Lemma handle_long_word_spec (w : Z) (c : str) (rest cl : list str) (n : Z)
    (cl' chunks' : list str) :
  (1 <= w)%Z -> (0 <= n <= w)%Z -> (w < len c)%Z ->
  handle_long_word c rest cl n w = (cl', chunks') ->
  exists piece remainder,
    cl' = cl ++ [piece] /\ chunks' = remainder :: rest
    /\ piece ++ remainder = c
    /\ (len piece <= w - n)%Z
    /\ (n = 0%Z -> length remainder < length c).
Proof.
  intros Hw Hn Hc. unfold handle_long_word.
  destruct (w <? 1)%Z eqn:E; [apply Z.ltb_lt in E; lia|]. clear E.
  set (hyphen := rfind_char HYPHEN (slice_to c (w - n))).
  set (end_ := if (w - n <? len c)%Z && (0 <? hyphen)%Z
                  && existsb (fun c0 => negb (Ascii.eqb c0 HYPHEN))
                       (slice_to c hyphen)
               then (hyphen + 1)%Z else (w - n)%Z).
  assert (Hend : (0 <= end_ <= w - n)%Z /\ (n = 0%Z -> 1 <= end_)%Z).
  { subst end_.
    destruct ((w - n <? len c)%Z && (0 <? hyphen)%Z
              && existsb (fun c0 => negb (Ascii.eqb c0 HYPHEN))
                   (slice_to c hyphen)) eqn:B.
    - apply andb_true_iff in B as [B _].
      apply andb_true_iff in B as [_ B]. apply Z.ltb_lt in B.
      pose proof (rfind_char_bound HYPHEN (slice_to c (w - n))) as R.
      fold hyphen in R.
      pose proof (@len_slice_to c (w - n)) as L. lia.
    - lia. }
  clearbody end_. intros [= <- <-].
  exists (slice_to c end_), (slice_from c end_).
  repeat split; [apply slice_join | |].
  - pose proof (@len_slice_to c end_). lia.
  - intros Hz. unfold slice_from.
    assert (E : (end_ <? 0)%Z = false) by (apply Z.ltb_ge; lia).
    rewrite E, length_skipn. unfold len in Hc. lia.
Qed.

(** Adding the current line keeps the characters and the width bound. *)
Lemma wrap_line_finish (w : Z) (lines cl2 chunks3 : list str) (all : str) :
  concat cl2 ++ concat chunks3 = all ->
  (len (concat cl2) <= w)%Z ->
  let lines' :=
    match drop_trailing_blank cl2 with
    | _ :: _ => lines ++ [concat (drop_trailing_blank cl2)]
    | [] => lines
    end in
  nonspace (concat lines') ++ nonspace (concat chunks3)
  = nonspace (concat lines) ++ nonspace all
  /\ (Forall (fun l => (len l <= w)%Z) lines ->
      Forall (fun l => (len l <= w)%Z) lines').
Proof.
  intros Hall Hlen lines'.
  assert (C : concat lines' = concat lines ++ concat (drop_trailing_blank cl2)
              /\ (Forall (fun l => (len l <= w)%Z) lines ->
                  Forall (fun l => (len l <= w)%Z) lines')).
  { subst lines'. destruct (drop_trailing_blank cl2) as [|x l] eqn:E.
    - cbn [concat]. rewrite app_nil_r. auto.
    - rewrite concat_app. cbn [concat]. rewrite app_nil_r. split; auto.
      intros F. apply Forall_app. split; [exact F|].
      constructor; [|constructor].
      pose proof (drop_trailing_blank_len cl2) as D. rewrite E in D.
      cbn [concat] in D. lia. }
  destruct C as [C F]. split; [|exact F].
  rewrite C, nonspace_app, drop_trailing_blank_nonspace, <- Hall.
  now rewrite <- app_assoc, <- nonspace_app.
Qed.

(** One turn of the outer loop keeps the characters that are not
    whitespace, makes the chunks lighter and adds a line of at most
    [w] characters, if any. *)
Lemma wrap_line_spec (w : Z) (c0 : str) (rest0 lines : list str)
    (chunks' lines' : list str) :
  (1 <= w)%Z ->
  wrap_line w c0 rest0 lines = (chunks', lines') ->
  nonspace (concat lines') ++ nonspace (concat chunks')
  = nonspace (concat lines) ++ nonspace (concat (c0 :: rest0))
  /\ weight chunks' < weight (c0 :: rest0)
  /\ (Forall (fun l => (len l <= w)%Z) lines ->
      Forall (fun l => (len l <= w)%Z) lines').
Proof.
  intros Hw. unfold wrap_line.
  set (chunks1 := match lines with
                  | [] => c0 :: rest0
                  | _ :: _ => if blank c0 then rest0 else c0 :: rest0
                  end).
  assert (H1 : nonspace (concat chunks1) = nonspace (concat (c0 :: rest0))
               /\ weight chunks1 <= weight (c0 :: rest0)
               /\ (chunks1 = [] -> 0 < weight (c0 :: rest0))).
  { rewrite weight_cons. subst chunks1.
    destruct lines; [repeat split; auto; lia|].
    destruct (blank c0) eqn:B; [|repeat split; auto; lia].
    cbn [concat]. rewrite nonspace_app, (blank_nonspace _ B).
    repeat split; auto; lia. }
  destruct H1 as (Hns & Hwt & Hnil). clearbody chunks1.
  destruct (fill w chunks1 [] 0) as [[cl n] chunks2] eqn:Hf.
  apply fill_spec in Hf as (taken & Hcl & Hch & Hn & Hle & Hstop).
  cbn [app] in Hcl. subst cl chunks1.
  rewrite weight_app in Hwt. rewrite concat_app, nonspace_app in Hns.
  assert (Hn0 : (0 <= n <= w)%Z).
  { pose proof (len_nonneg (concat taken)). lia. }
  assert (Htk : taken = [] -> n = 0%Z).
  { intros ->. subst n. reflexivity. }
  assert (Hpos : taken <> [] -> 0 < weight taken).
  { destruct taken; [congruence|]. rewrite weight_cons. lia. }
  destruct chunks2 as [|c rest].
  - intros [= <- <-].
    destruct (@wrap_line_finish w lines taken [] (concat taken))
      as [A B]; [now rewrite app_nil_r | lia |].
    split; [|split; [|exact B]].
    + rewrite A, <- Hns.
      change (nonspace (concat [])) with (@nil ascii).
      now rewrite !app_nil_r.
    + destruct taken as [|t taken].
      * specialize (Hnil eq_refl). cbn. lia.
      * specialize (Hpos ltac:(discriminate)). cbn [weight fold_right]. lia.
  - destruct (w <? len c)%Z eqn:Hlong.
    + apply Z.ltb_lt in Hlong.
      destruct (handle_long_word c rest taken n w) as [cl2 chunks3] eqn:Hh.
      apply handle_long_word_spec in Hh
        as (piece & remainder & -> & -> & Hpr & Hpl & Hshort); auto.
      intros [= <- <-].
      destruct (@wrap_line_finish w lines (taken ++ [piece])
                  (remainder :: rest) (concat taken ++ concat (c :: rest)))
        as [A B].
      { rewrite concat_app. cbn [concat]. rewrite app_nil_r.
        rewrite <- app_assoc. f_equal. rewrite app_assoc. now rewrite Hpr. }
      { rewrite concat_app, len_app. cbn [concat]. rewrite app_nil_r. lia. }
      split; [|split; [|exact B]].
      * rewrite A, nonspace_app. now rewrite <- Hns.
      * rewrite !weight_cons in *.
        assert (length remainder <= length c).
        { rewrite <- Hpr, length_app. lia. }
        destruct taken as [|t taken].
        -- specialize (Hshort (Htk eq_refl)). cbn [weight fold_right] in *. lia.
        -- specialize (Hpos ltac:(discriminate)). lia.
    + apply Z.ltb_ge in Hlong. intros [= <- <-].
      destruct (@wrap_line_finish w lines taken (c :: rest)
                  (concat taken ++ concat (c :: rest)))
        as [A B]; [reflexivity | lia |].
      split; [|split; [|exact B]].
      * rewrite A, nonspace_app. now rewrite <- Hns.
      * destruct taken as [|t taken].
        -- specialize (Htk eq_refl). lia.
        -- specialize (Hpos ltac:(discriminate)). lia.
Qed.

(** With [weight chunks] turns the outer loop uses up the chunks: all
    their characters that are not whitespace are in the lines, in
    order, and no line is longer than [w]. *)
Lemma wrap_loop_spec (fuel : nat) (w : Z) :
  (1 <= w)%Z ->
  forall chunks lines,
    weight chunks <= fuel ->
    nonspace (concat (wrap_loop fuel w chunks lines))
    = nonspace (concat lines) ++ nonspace (concat chunks)
    /\ (Forall (fun l => (len l <= w)%Z) lines ->
        Forall (fun l => (len l <= w)%Z) (wrap_loop fuel w chunks lines)).
Proof.
  intros Hw. induction fuel as [|fuel IH]; intros chunks lines Hfuel.
  - destruct chunks as [|c chunks].
    + cbn. rewrite app_nil_r. auto.
    + rewrite weight_cons in Hfuel. lia.
  - destruct chunks as [|c0 rest0].
    + cbn. rewrite app_nil_r. auto.
    + cbn [wrap_loop].
      destruct (wrap_line w c0 rest0 lines) as [chunks' lines'] eqn:E.
      apply wrap_line_spec in E as (Hns & Hwt & Hlen); auto.
      destruct (IH chunks' lines') as [A B]; [lia|].
      split; [now rewrite A, Hns | auto].
Qed.

Lemma wrap_loop_fuel_eq (w : Z) :
  (1 <= w)%Z ->
  forall fuel fuel' chunks lines,
    weight chunks <= fuel -> weight chunks <= fuel' ->
    wrap_loop fuel w chunks lines = wrap_loop fuel' w chunks lines.
Proof.
  intros Hw. induction fuel as [|fuel IH]; intros fuel' chunks lines H H'.
  - destruct chunks as [|c chunks]; [now destruct fuel'|].
    rewrite weight_cons in H. lia.
  - destruct chunks as [|c0 rest0]; [now destruct fuel'|].
    rewrite weight_cons in H, H'.
    destruct fuel' as [|fuel']; [lia|].
    cbn [wrap_loop].
    destruct (wrap_line w c0 rest0 lines) as [chunks' lines'] eqn:E.
    apply wrap_line_spec in E as (_ & Hwt & _); auto.
    rewrite weight_cons in Hwt. apply IH; lia.
Qed.

(** Turns beyond [weight chunks] change nothing. *)
Lemma wrap_loop_fuel (fuel : nat) (w : Z) (chunks lines : list str) :
  (1 <= w)%Z ->
  weight chunks <= fuel ->
  wrap_loop fuel w chunks lines
  = wrap_loop (weight chunks) w chunks lines.
Proof. intros Hw H. apply wrap_loop_fuel_eq; auto. Qed.

Lemma isspace_is_ws (c : ascii) : is_ws c = true -> isspace c = true.
Proof.
  unfold is_ws, isspace. intros H.
  apply orb_true_iff in H as [H|H].
  - now rewrite H.
  - apply Nat.eqb_eq in H. rewrite H. reflexivity.
Qed.

Lemma nonspace_spaces (n : nat) : nonspace (repeat SPACE n) = [].
Proof. induction n as [|n IH]; [reflexivity|exact IH]. Qed.

Lemma nonspace_cons (c : ascii) (s : str) :
  nonspace (c :: s) = if isspace c then nonspace s else c :: nonspace s.
Proof. unfold nonspace. cbn [filter]. now destruct (isspace c). Qed.

Lemma nonspace_expandtabs (s : str) (col : nat) :
  nonspace (expandtabs col s) = nonspace s.
Proof.
  revert col. induction s as [|c s IH]; intros col; [reflexivity|].
  cbn [expandtabs].
  destruct (Ascii.eqb c TAB) eqn:T.
  - apply Ascii.eqb_eq in T. subst c.
    rewrite nonspace_app, nonspace_spaces, IH. reflexivity.
  - destruct (Ascii.eqb c NL || Ascii.eqb c CR);
      rewrite !nonspace_cons, IH; reflexivity.
Qed.

Lemma nonspace_munge (text : str) :
  nonspace (munge_whitespace text) = nonspace text.
Proof.
  unfold munge_whitespace. rewrite <- (nonspace_expandtabs text 0).
  induction (expandtabs 0 text) as [|c s IH]; [reflexivity|].
  cbn [map]. rewrite !nonspace_cons, IH.
  destruct (is_ws c) eqn:W; [|reflexivity].
  now rewrite (isspace_is_ws _ W).
Qed.

Lemma concat_filter_truthy (l : list str) :
  concat (filter truthy l) = concat l.
Proof.
  induction l as [|c l IH]; [reflexivity|].
  cbn [filter]. destruct c; cbn [truthy concat app]; [exact IH|].
  now rewrite IH.
Qed.

Lemma split_runs_concat (s : str) : concat (split_runs s) = s.
Proof.
  induction s as [|c s IH]; [reflexivity|].
  cbn [split_runs].
  destruct (split_runs s) as [|[|d r] rest].
  - cbn in *. now subst.
  - cbn in *. now subst.
  - destruct (Bool.eqb (is_ws c) (is_ws d)); cbn in *; now subst.
Qed.

Section WithSplit.

Variable split : str -> list str.
Hypothesis split_concat : forall text, concat (split text) = text.

(** What [textwrap.wrap] returns: the characters of the text that are
    not whitespace, in order, on lines of at most [width]
    characters. *)
Lemma wrap_ok (text : str) (width : Z) (ls : list str) :
  wrap split text width = Ok ls ->
  (1 <= width)%Z
  /\ nonspace (concat ls) = nonspace text
  /\ Forall (fun l => (len l <= width)%Z) ls.
Proof.
  unfold wrap, wrap_chunks.
  destruct (width <=? 0)%Z eqn:E; [discriminate|].
  apply Z.leb_gt in E. intros [= <-].
  destruct (@wrap_loop_spec (weight (split_chunks split text)) width
              ltac:(lia) (split_chunks split text) [] (Nat.le_refl _))
    as [A B].
  split; [lia|]. split; [|now apply B].
  rewrite A. cbn [concat]. unfold split_chunks.
  rewrite concat_filter_truthy, split_concat. apply nonspace_munge.
Qed.

Lemma wrap_raises (text : str) (width : Z) (e : exn) :
  wrap split text width = Raise e -> (width <= 0)%Z /\ e = ValueError.
Proof.
  unfold wrap, wrap_chunks.
  destruct (width <=? 0)%Z eqn:E; [|discriminate].
  apply Z.leb_le in E. now intros [= <-].
Qed.

End WithSplit.

End TextwrapFacts.

(** ** The text wrapper *)

Section WrapTextProperties.

Variable bbox_right : font -> str -> Z.
Variable split : str -> list str.

Local Abbreviation adjust_ := (adjust bbox_right split).
Local Abbreviation wrap_paragraph_ := (wrap_paragraph bbox_right split).
Local Abbreviation wrap_paragraphs_ := (wrap_paragraphs bbox_right split).
Local Abbreviation wrap_text_ := (_wrap_text bbox_right split).

(** The loop over the lines appends every line of the list it runs
    over to [final_wrapped], whatever it rebinds [wrapped] to. *)
Lemma adjust_final (fnt : font) (max_width : Z) (paragraph : str)
    (iter : list str) (cpl : Z) (wrapped final : list str)
    (cpl' : Z) (wrapped' final' : list str) :
  adjust_ fnt max_width paragraph iter cpl wrapped final
    = Ok (cpl', wrapped', final') ->
  final' = final ++ iter /\ (iter = [] -> wrapped' = wrapped).
Proof.
  revert cpl wrapped final.
  induction iter as [|line rest IH]; intros cpl wrapped final H.
  - cbn [adjust] in H. injection H as <- <- <-.
    now rewrite app_nil_r.
  - cbn [adjust] in H. split; [|discriminate].
    destruct ((max_width <? bbox_right fnt line)%Z
              && (10 <? Py.len line)%Z).
    + unfold rbind in H.
      destruct (Textwrap.wrap split paragraph
                  (Float.int_mul cpl Float.c0_9)); [|discriminate].
      apply IH in H as [-> _]. now rewrite <- app_assoc.
    + apply IH in H as [-> _]. now rewrite <- app_assoc.
Qed.

(** The lines [_wrap_text] adds for a paragraph are those of the first
    wrap, at the budget computed from the width of ["x"]: the result of
    a re-wrap is never used. *)
Lemma wrap_paragraph_first_wrap (fnt : font) (max_width : Z)
    (paragraph : str) (ls : list str) :
  wrap_paragraph_ fnt max_width paragraph = Ok ls ->
  Textwrap.wrap split paragraph (budget bbox_right fnt max_width) = Ok ls.
Proof.
  unfold wrap_paragraph, budget.
  destruct (bbox_right fnt (s!"x") =? 0)%Z; [discriminate|].
  set (cpl := Z.max 10 _).
  destruct (Textwrap.wrap split paragraph cpl) as [wrapped|e] eqn:W;
    [|discriminate].
  cbn [rbind].
  destruct (adjust_ fnt max_width paragraph wrapped cpl wrapped [])
    as [[[c' w'] f']|e] eqn:A; [|discriminate].
  cbn [rbind]. apply adjust_final in A as [-> Hnil]. cbn [app].
  destruct wrapped as [|l wrapped]; intros [= <-]; [|reflexivity].
  now rewrite Hnil.
Qed.

Lemma split_nl_nonspace (text : str) :
  nonspace (concat (Py.split_nl text)) = nonspace text.
Proof.
  induction text as [|c text IH]; [reflexivity|].
  cbn [Py.split_nl]. rewrite TextwrapFacts.nonspace_cons.
  destruct (Ascii.eqb c Py.NL) eqn:E.
  - apply Ascii.eqb_eq in E. subst c. cbn [concat app]. exact IH.
  - destruct (Py.split_nl text) as [|p ps];
      cbn [concat app] in *; rewrite TextwrapFacts.nonspace_cons, IH;
      reflexivity.
Qed.

Hypothesis split_concat : forall text, concat (split text) = text.

Lemma wrap_paragraphs_spec (fnt : font) (max_width : Z)
    (paragraphs lines ls : list str) :
  wrap_paragraphs_ fnt max_width paragraphs lines = Ok ls ->
  nonspace (concat ls)
  = nonspace (concat lines) ++ nonspace (concat paragraphs)
  /\ (Forall (fun l => (Py.len l <= budget bbox_right fnt max_width)%Z)
        lines ->
      Forall (fun l => (Py.len l <= budget bbox_right fnt max_width)%Z)
        ls).
Proof.
  revert lines. induction paragraphs as [|p ps IH]; intros lines H.
  - cbn [wrap_paragraphs] in H. injection H as <-.
    cbn [concat]. rewrite app_nil_r. auto.
  - cbn [wrap_paragraphs] in H.
    destruct (negb (Py.truthy (Py.strip p))) eqn:B.
    + apply IH in H as [A F].
      assert (P : nonspace p = []).
      { apply TextwrapFacts.strip_nil, TextwrapFacts.falsy_nil.
        now destruct (Py.truthy (Py.strip p)). }
      split.
      * rewrite A, concat_app. cbn [concat].
        rewrite !TextwrapFacts.nonspace_app, P. cbn [app].
        now rewrite !app_nil_r.
      * intros L. apply F, Forall_app. split; [exact L|].
        constructor; [|constructor]. unfold budget, Py.len. simpl length.
        lia.
    + destruct (wrap_paragraph_ fnt max_width p) as [wl|e] eqn:W;
        [|discriminate].
      cbn [rbind] in H. apply IH in H as [A F].
      apply wrap_paragraph_first_wrap in W.
      apply (@TextwrapFacts.wrap_ok split split_concat) in W as (_ & Wn & Wl).
      split.
      * rewrite A, concat_app. cbn [concat].
        rewrite !TextwrapFacts.nonspace_app, Wn. now rewrite app_assoc.
      * intros L. apply F, Forall_app. now split.
Qed.

(** C3, as amended.  When [_wrap_text] returns, the characters of the
    text that are not whitespace are all in the lines, in their order:
    nothing is dropped.  No line has more characters than the budget:
    a word longer than the budget is not kept whole on a line of its
    own, [textwrap] cuts it at character boundaries. *)
Theorem wrap_text_keeps_characters (text : str) (fnt : font)
    (max_width : Z) (ls : list str) :
  wrap_text_ text fnt max_width = Ok ls ->
  nonspace (concat ls) = nonspace text
  /\ Forall (fun l => (Py.len l <= budget bbox_right fnt max_width)%Z) ls.
Proof.
  unfold _wrap_text. intros H.
  apply wrap_paragraphs_spec in H as [A F].
  split; [|now apply F].
  rewrite A. cbn [concat app]. apply split_nl_nonspace.
Qed.

End WrapTextProperties.

Lemma wrap_text_keeps_characters_witness :
  let ls := [s!"Supercalifra"; s!"gilisticexpi"; s!"alidocious"] in
  nonspace (concat ls) = nonspace (s!"Supercalifragilisticexpialidocious")
  /\ Forall (fun l => (Py.len l
                       <= budget text_width (Truetype pacifico 24) 150)%Z) ls.
Proof.
  apply (@wrap_text_keeps_characters text_width Textwrap.split_runs
           TextwrapFacts.split_runs_concat
           (s!"Supercalifragilisticexpialidocious") (Truetype pacifico 24)
           150).
  vm_compute. reflexivity.
Defined.


(** ** The layout fitter *)

Section FitProperties.

Variable bbox_right : font -> str -> Z.
Variable bbox_bottom : font -> str -> Z.
Variable truetype_loads : str -> Z -> bool.
Variable speaker_font_path : option str.
Variable split : str -> list str.
Variable text : str.
Variable speaker : option str.
Variable max_width max_height : Z.
Variable choice : nat -> option str.

Local Abbreviation try_size_ :=
  (try_size bbox_right bbox_bottom truetype_loads speaker_font_path split
     text speaker max_width max_height).
Local Abbreviation fit_loop_ :=
  (fit_loop bbox_right bbox_bottom truetype_loads speaker_font_path split
     text speaker max_width max_height choice).
Local Abbreviation fallback_ :=
  (fallback bbox_right truetype_loads speaker_font_path split text max_width).
Local Abbreviation calculate_font_size_ :=
  (_calculate_font_size bbox_right bbox_bottom truetype_loads
     speaker_font_path split text speaker max_width max_height choice).

(** The size tried at turn [k] of a loop that starts at [q]. *)
Local Abbreviation size_at q k := (q - 2 * Z.of_nat k)%Z.

(** A turn that accepts returns the size it tried, the speaker size
    [max(14, int(size * 0.4))], and lines that fit. *)
Lemma try_size_some (drawn : option str) (q : Z) (l : layout) :
  try_size_ drawn q = Ok (Some l) ->
  quote_font_size l = q
  /\ speaker_font_size l = Z.max 14 (Float.int_mul q Float.c0_4)
  /\ _wrap_text bbox_right split text (quote_font l) max_width = Ok (lines l)
  /\ fits bbox_bottom speaker max_height (quote_font l) (speaker_font l)
       (lines l) = true.
Proof.
  unfold try_size.
  destruct (_wrap_text bbox_right split text
              (_get_random_font truetype_loads drawn q) max_width)
    as [ls|e] eqn:W; [|discriminate].
  cbn [rbind].
  destruct (fits bbox_bottom speaker max_height _ _ ls) eqn:F;
    [|discriminate].
  intros [= <-]. cbn. auto.
Qed.

(** A turn raises only what [_wrap_text] raised. *)
Lemma try_size_raise (drawn : option str) (q : Z) (e : exn) :
  try_size_ drawn q = Raise e ->
  _wrap_text bbox_right split text
    (_get_random_font truetype_loads drawn q) max_width = Raise e.
Proof.
  unfold try_size.
  destruct (_wrap_text bbox_right split text
              (_get_random_font truetype_loads drawn q) max_width)
    as [ls|e'] eqn:W.
  - cbn [rbind]. now destruct (fits bbox_bottom speaker max_height _ _ ls).
  - cbn [rbind]. now intros [= <-].
Qed.

(** What the loop did when it ends: it accepted the first size that fits,
    or no size from [q] down to 20 fits, or a turn raised after turns
    that did not fit. *)
Lemma fit_loop_cases (fuel : nat) :
  forall (turn : nat) (q : Z),
    (q <= 18 + 2 * Z.of_nat fuel)%Z ->
    match fit_loop_ fuel turn q with
    | Ok (Some l) =>
        exists k, k < fuel /\ (20 <= size_at q k)%Z
          /\ try_size_ (choice (turn + k)) (size_at q k) = Ok (Some l)
          /\ forall j, j < k ->
               try_size_ (choice (turn + j)) (size_at q j) = Ok None
    | Ok None =>
        forall j, (20 <= size_at q j)%Z ->
          try_size_ (choice (turn + j)) (size_at q j) = Ok None
    | Raise e =>
        exists k, k < fuel /\ (20 <= size_at q k)%Z
          /\ try_size_ (choice (turn + k)) (size_at q k) = Raise e
          /\ forall j, j < k ->
               try_size_ (choice (turn + j)) (size_at q j) = Ok None
    end.
Proof.
  induction fuel as [|fuel IH]; intros turn q Hq.
  - cbn [fit_loop]. destruct (20 <=? q)%Z; intros j Hj; lia.
  - cbn [fit_loop]. destruct (20 <=? q)%Z eqn:E.
    + apply Z.leb_le in E.
      assert (Z0 : size_at q 0 = q) by lia.
      destruct (try_size_ (choice turn) q) as [[l|]|e] eqn:T; cbn [rbind].
      * exists 0. rewrite Nat.add_0_r, Z0.
        repeat split; auto; try lia; intros j Hj; lia.
      * specialize (IH (S turn) (q - 2)%Z ltac:(lia)).
        assert (Sh : forall k, size_at (q - 2) k = size_at q (S k))
          by (intros; lia).
        destruct (fit_loop_ fuel (S turn) (q - 2)) as [[l|]|e].
        -- destruct IH as (k & Hk & Hs & Ht & Hb).
           exists (S k). rewrite <- Sh, Nat.add_succ_r.
           repeat split; auto; try lia.
           intros [|j] Hj; [now rewrite Nat.add_0_r, Z0|].
           rewrite <- Sh, Nat.add_succ_r. apply Hb. lia.
        -- intros [|j] Hj; [now rewrite Nat.add_0_r, Z0|].
           rewrite <- Sh, Nat.add_succ_r. apply IH. lia.
        -- destruct IH as (k & Hk & Hs & Ht & Hb).
           exists (S k). rewrite <- Sh, Nat.add_succ_r.
           repeat split; auto; try lia.
           intros [|j] Hj; [now rewrite Nat.add_0_r, Z0|].
           rewrite <- Sh, Nat.add_succ_r. apply Hb. lia.
      * exists 0. rewrite Nat.add_0_r, Z0.
        repeat split; auto; try lia; intros j Hj; lia.
    + apply Z.leb_gt in E. intros j Hj; lia.
Qed.

(** From 120 the loop is over after 51 turns: more fuel changes
    nothing. *)
Lemma fit_loop_fuel (fuel : nat) :
  forall (fuel' turn : nat) (q : Z),
    (q <= 18 + 2 * Z.of_nat fuel)%Z -> (q <= 18 + 2 * Z.of_nat fuel')%Z ->
    fit_loop_ fuel turn q = fit_loop_ fuel' turn q.
Proof.
  induction fuel as [|fuel IH]; intros fuel' turn q H H'.
  - destruct fuel'; cbn [fit_loop];
      destruct (20 <=? q)%Z eqn:E; try reflexivity.
    apply Z.leb_le in E. lia.
  - destruct fuel' as [|fuel']; cbn [fit_loop];
      destruct (20 <=? q)%Z eqn:E; try reflexivity.
    + apply Z.leb_le in E. lia.
    + destruct (try_size_ (choice turn) q) as [[l|]|e]; cbn [rbind];
        try reflexivity.
      apply IH; lia.
Qed.

(** The fitter, case by case.  It makes at most 51 turns, at the sizes
    120, 118, ..., 20.  When it returns, the layout is that of the first
    size that fits, in the range from 20 to 120, or, when none of the
    51 sizes fits, that of the fallback at size 20.  It raises exactly when
    [_wrap_text] raises at a turn reached or in the fallback. *)
Lemma calculate_font_size_cases :
  match calculate_font_size_ with
  | Ok l =>
      (exists k, k < 51
         /\ quote_font_size l = size_at 120 k
         /\ (20 <= quote_font_size l <= 120)%Z
         /\ try_size_ (choice k) (size_at 120 k) = Ok (Some l)
         /\ forall j, j < k ->
              try_size_ (choice j) (size_at 120 j) = Ok None)
      \/ ((forall j, j < 51 ->
             try_size_ (choice j) (size_at 120 j) = Ok None)
          /\ fallback_ (choice 51) = Ok l
          /\ quote_font_size l = 20%Z)
  | Raise e =>
      (exists k, k < 51
         /\ try_size_ (choice k) (size_at 120 k) = Raise e
         /\ forall j, j < k ->
              try_size_ (choice j) (size_at 120 j) = Ok None)
      \/ ((forall j, j < 51 ->
             try_size_ (choice j) (size_at 120 j) = Ok None)
          /\ fallback_ (choice 51) = Raise e)
  end.
Proof.
  unfold _calculate_font_size.
  pose proof (@fit_loop_cases 51 0 120 ltac:(lia)) as C.
  destruct (fit_loop_ 51 0 120) as [[l|]|e]; cbn [rbind].
  - destruct C as (k & Hk & Hs & Ht & Hb). left. exists k.
    cbn [plus] in Ht. destruct (try_size_some _ _ Ht) as (Hq & _).
    repeat split; auto; lia.
  - assert (N : forall j, j < 51 ->
                try_size_ (choice j) (size_at 120 j) = Ok None).
    { intros j Hj. apply (C j). lia. }
    destruct (fallback_ (choice 51)) as [l|e] eqn:Fb.
    + right. repeat split; auto.
      unfold fallback in Fb.
      destruct (_wrap_text bbox_right split text _ max_width);
        [|discriminate].
      cbn [rbind] in Fb. now injection Fb as <-.
    + right. split; auto.
  - destruct C as (k & Hk & Hs & Ht & Hb). left. exists k. auto.
Qed.

(** When [_wrap_text] raises for no font, the fitter returns. *)
Lemma calculate_font_size_returns :
  (forall fnt, exists ls,
     _wrap_text bbox_right split text fnt max_width = Ok ls) ->
  exists l, calculate_font_size_ = Ok l /\ (20 <= quote_font_size l <= 120)%Z.
Proof.
  intros Hw. pose proof calculate_font_size_cases as C.
  destruct calculate_font_size_ as [l|e].
  - exists l. split; [reflexivity|].
    destruct C as [(k & _ & _ & H & _)|(_ & _ & H)]; [exact H|lia].
  - exfalso. destruct C as [(k & _ & H & _)|(_ & H)].
    + apply try_size_raise in H.
      destruct (Hw (_get_random_font truetype_loads (choice k)
                      (size_at 120 k))) as [ls E].
      congruence.
    + unfold fallback in H.
      destruct (Hw (_get_random_font truetype_loads (choice 51) 20))
        as [ls E].
      rewrite E in H. discriminate.
Qed.

End FitProperties.


(** * Further properties *)

(** ** The numbering of the images *)

Module NumberingFacts.

Import Py PyChars.

Lemma string_of_zeros (k : nat) (l : str) :
  NilEmpty.uint_of_string (string_of_list_ascii (repeat (ch 48) k ++ l))
  = option_map (Nat.iter k Decimal.D0)
      (NilEmpty.uint_of_string (string_of_list_ascii l)).
Proof.
  induction k as [|k IH]; cbn [repeat app Nat.iter].
  - now destruct (NilEmpty.uint_of_string (string_of_list_ascii l)).
  - cbn [string_of_list_ascii NilEmpty.uint_of_string]. rewrite IH.
    now destruct (NilEmpty.uint_of_string (string_of_list_ascii l)).
Qed.

Lemma of_uint_zeros (k : nat) (d : Decimal.uint) :
  Nat.of_uint (Nat.iter k Decimal.D0 d) = Nat.of_uint d.
Proof. induction k as [|k IH]; [reflexivity|exact IH]. Qed.

(** The field [{count:03d}] has at least three characters and reads back
    as the count. *)
Lemma fmt_03d_decimal (n : nat) :
  decimal (fmt_03d n) = Some n /\ 3 <= length (fmt_03d n).
Proof.
  unfold decimal, fmt_03d, lit. split.
  - rewrite string_of_zeros, string_of_list_ascii_of_string, NilEmpty.usu.
    cbn [option_map]. rewrite of_uint_zeros. f_equal.
    apply DecimalNat.Unsigned.of_to.
  - rewrite length_app, repeat_length. lia.
Qed.

Lemma fmt_03d_inj (n m : nat) : fmt_03d n = fmt_03d m -> n = m.
Proof.
  intros H. pose proof (proj1 (fmt_03d_decimal n)) as A.
  rewrite H, (proj1 (fmt_03d_decimal m)) in A. congruence.
Qed.

Lemma startswith_prefix (pre x : str) (c : ascii) :
  pre <> [] -> startswith (pre ++ x) [c] = startswith pre [c].
Proof.
  destruct pre as [|a pre]; [congruence|]. intros _. cbn.
  destruct (Ascii.eqb c a); [|reflexivity].
  now rewrite !PyFacts.startswith_nil.
Qed.

(** Joining a directory with a name that starts with a fixed, non-empty
    prefix puts a fixed text in front of the rest of the name. *)
Lemma path_join_prefix (dir pre : str) :
  pre <> [] -> exists front, forall x, path_join dir (pre ++ x) = front ++ x.
Proof.
  intros Hpre. unfold path_join.
  destruct (startswith pre [ch 47]) eqn:E.
  - exists pre. intros x. now rewrite startswith_prefix, E.
  - destruct (negb (truthy dir) || endswith dir [ch 47]).
    + exists (dir ++ pre). intros x.
      now rewrite startswith_prefix, E, app_assoc.
    + exists (dir ++ [ch 47] ++ pre). intros x.
      rewrite startswith_prefix, E by assumption.
      now rewrite <- !app_assoc.
Qed.

End NumberingFacts.

Section ParserInvariants.

Variable generate_image : str -> str -> str -> result unit.
Variable csv_filename : str.
Variable output_dir : str.

Local Abbreviation step_ := (step generate_image csv_filename output_dir).
Local Abbreviation run_ := (run generate_image csv_filename output_dir).
Local Abbreviation emit_ := (emit generate_image csv_filename output_dir).
Local Abbreviation emit_keep_ :=
  (emit_keep generate_image csv_filename output_dir).
Local Abbreviation output_path_ := (output_path csv_filename output_dir).
Local Abbreviation process_lines_ :=
  (process_lines generate_image csv_filename output_dir).
Local Abbreviation numbered := (numbered csv_filename output_dir).

(** X2.  The field [{count:03d}] of an output file name has at least
    three characters and reads back, as a decimal number, as the count:
    also beyond 999, where it gets longer. *)
Theorem image_number_reads_back (n : nat) :
  PyChars.decimal (Py.fmt_03d n) = Some n /\ 3 <= length (Py.fmt_03d n).
Proof. apply NumberingFacts.fmt_03d_decimal. Qed.

(** X3.  Two images of one batch never have the same output path: the
    path determines the number of the image. *)
Theorem output_path_injective (n m : nat) :
  output_path csv_filename output_dir n = output_path csv_filename output_dir m ->
  n = m.
Proof.
  unfold output_path.
  destruct (@NumberingFacts.path_join_prefix output_dir
              (csv_filename ++ s!"_quote_")) as [front Hfront].
  { destruct csv_filename; discriminate. }
  rewrite !app_assoc, <- !(app_assoc (csv_filename ++ s!"_quote_")).
  rewrite !Hfront. intros H.
  apply app_inv_head, app_inv_tail in H.
  now apply NumberingFacts.fmt_03d_inj.
Qed.

Lemma numbered_next (st : pstate) (quote speaker : str) (cq cs : str)
    (inq : bool) :
  numbered st ->
  numbered (PState cq cs inq (S (count st))
              (images st ++ [Call quote speaker (output_path_ (S (count st)))])).
Proof.
  intros [Hc Hp]. split; cbn [count images].
  - rewrite length_app. cbn [length]. lia.
  - rewrite map_app, Hp, seq_S, map_app. reflexivity.
Qed.

Lemma emit_numbered (st st' : pstate) (quote speaker : str) :
  numbered st -> emit_ quote speaker st = Ok st' -> numbered st'.
Proof.
  unfold emit, rbind. intros N.
  destruct (generate_image quote speaker _); [|discriminate].
  intros [= <-]. now apply numbered_next.
Qed.

Lemma emit_keep_numbered (st st' : pstate) (quote speaker : str) :
  numbered st -> emit_keep_ quote speaker st = Ok st' -> numbered st'.
Proof.
  unfold emit_keep, rbind. intros N.
  destruct (generate_image quote speaker _); [|discriminate].
  intros [= <-]. now apply numbered_next.
Qed.

Lemma enter_quote_numbered (st : pstate) (b : bool) :
  numbered st -> numbered (if b then enter_quote st else st).
Proof. now destruct b. Qed.

Lemma step_numbered (st st' : pstate) (line : str) :
  numbered st -> step_ st line = Ok st' -> numbered st'.
Proof.
  intros N. unfold step.
  pose proof (enter_quote_numbered (Py.startswith line [Py.DQUOTE]) N) as N'.
  set (st1 := if Py.startswith line [Py.DQUOTE] then enter_quote st else st)
    in *. clearbody st1.
  repeat match goal with
  | |- context [if ?b then _ else _] => destruct b
  | |- context [match Py.rsplit1 ?s ?l with _ => _ end] =>
      destruct (Py.rsplit1 s l) as [|? [|? [|? ?]]]
  end; try discriminate;
  try (intros [= <-]; assumption);
  try (now apply emit_numbered);
  try (now apply emit_keep_numbered).
Qed.

Lemma run_numbered (lines : list str) :
  forall st st' r,
    numbered st -> run_ st lines = (st', r) -> numbered st'.
Proof.
  induction lines as [|line lines IH]; intros st st' r N H.
  - cbn [run] in H. now injection H as <- _.
  - cbn [run] in H. destruct (step_ st line) as [st1|e] eqn:E.
    + eapply IH; [|exact H]. eapply step_numbered; eassumption.
    + now injection H as <- _.
Qed.

(** X1.  Whatever the file holds and whether or not [generate_image]
    raises at some record: the images written are numbered 1, 2, 3, ...
    in the order of writing, each at the output path of its number, and
    a returned count is the number of images written. *)
Theorem process_csv_numbers_images (lines : list str)
    (written : list image_call) (r : result nat) :
  process_lines_ lines = (written, r) ->
  map call_path written = map output_path_ (seq 1 (length written))
  /\ forall n, r = Ok n -> n = length written.
Proof.
  unfold process_lines.
  destruct (run_ initial (tl lines)) as [st r0] eqn:R.
  assert (N : numbered st).
  { eapply run_numbered; [|exact R]. split; reflexivity. }
  assert (Done : forall st2, numbered st2 ->
            map call_path (images st2)
            = map output_path_ (seq 1 (length (images st2)))).
  { intros st2 [Hc Hp]. now rewrite <- Hc. }
  destruct r0 as [?|e].
  - destruct (Py.truthy (Py.strip (current_quote st))).
    + destruct (emit_ (Py.strip (current_quote st)) (current_speaker st) st)
        as [st2|e] eqn:E.
      * eapply emit_numbered in E; [|exact N]. intros [= <- <-].
        split; [now apply Done|]. intros n [= <-]. apply E.
      * intros [= <- <-]. split; [now apply Done|discriminate].
    + intros [= <- <-]. split; [now apply Done|].
      intros n [= <-]. apply N.
  - intros [= <- <-]. split; [now apply Done|discriminate].
Qed.

Lemma step_tidy (st st' : pstate) (line : str) :
  tidy st -> step_ st line = Ok st' -> tidy st'.
Proof.
  intros [Hs Hq]. unfold step, emit, emit_keep, rbind.
  assert (T1 : forall b : bool, tidy (if b then enter_quote st else st)).
  { intros []; split; auto. cbn. discriminate. }
  specialize (T1 (Py.startswith line [Py.DQUOTE])).
  set (st1 := if Py.startswith line [Py.DQUOTE] then enter_quote st else st)
    in *. clearbody st1. destruct T1 as [Hs1 Hq1].
  repeat match goal with
  | |- context [if ?b then _ else _] => destruct b eqn:?
  | |- context [match Py.rsplit1 ?s ?l with _ => _ end] =>
      destruct (Py.rsplit1 s l) as [|? [|? [|? ?]]]
  | |- context [match generate_image ?q ?s ?p with _ => _ end] =>
      destruct (generate_image q s p)
  end; try discriminate; intros [= <-]; split; cbn; auto; discriminate.
Qed.

(** X4.  In every state the loop reaches, the speaker accumulator is
    empty, and outside a quoted field the quote buffer is empty too: a
    record emitted by a blank line, by a bare closing quote mark or at
    the end of the input always has the empty speaker, and a plain line
    never finds text left in the buffer. *)
Theorem accumulators_tidy (lines : list str) (st : pstate) (r : result unit) :
  run_ initial lines = (st, r) ->
  current_speaker st = []
  /\ (in_quote st = false -> current_quote st = []).
Proof.
  assert (G : forall lines st0 st r,
            tidy st0 -> run_ st0 lines = (st, r) -> tidy st).
  { clear. intros lines. induction lines as [|line lines IH];
      intros st0 st r T H; cbn [run] in H.
    - now injection H as <- _.
    - destruct (step_ st0 line) as [st1|e] eqn:E.
      + eapply IH; [|exact H]. eapply step_tidy; eassumption.
      + now injection H as <- _. }
  intros H. eapply G; [|exact H]. split; reflexivity.
Qed.

Lemma truthy_strip (s : str) :
  Py.truthy (Py.strip s) = true -> Py.truthy s = true.
Proof. now destruct s. Qed.

Lemma step_owed (st st' : pstate) (line : str) (k : nat) :
  owed st <= k -> step_ st line = Ok st' -> owed st' <= S k.
Proof.
  intros H. unfold step, emit, emit_keep, rbind.
  assert (E1 : forall b : bool,
            images (if b then enter_quote st else st) = images st
            /\ current_quote (if b then enter_quote st else st)
               = current_quote st) by (intros []; auto).
  destruct (E1 (Py.startswith line [Py.DQUOTE])) as [Ei Eq].
  set (st1 := if Py.startswith line [Py.DQUOTE] then enter_quote st else st)
    in *. clearbody st1.
  repeat match goal with
  | |- context [if ?b then _ else _] => destruct b eqn:?
  | |- context [match Py.rsplit1 ?s ?l with _ => _ end] =>
      destruct (Py.rsplit1 s l) as [|? [|? [|? ?]]]
  | |- context [match generate_image ?q ?s ?p with _ => _ end] =>
      destruct (generate_image q s p)
  end; try discriminate; intros [= <-]; unfold owed in *;
  cbn [images current_quote Py.truthy];
  rewrite ?length_app, ?Ei, ?Eq; cbn [length];
  repeat match goal with
  | |- context [if ?b then _ else _] => destruct b
  | H : context [if ?b then _ else _] |- _ => destruct b
  end; lia.
Qed.

Lemma run_owed (lines : list str) :
  forall st st' r k,
    owed st <= k -> run_ st lines = (st', r) ->
    owed st' <= k + length lines.
Proof.
  induction lines as [|line lines IH]; intros st st' r k O H; cbn [run] in H.
  - injection H as <- _. cbn [length]. lia.
  - cbn [length]. destruct (step_ st line) as [st1|e] eqn:E.
    + apply (IH st1 st' r (S k)) in H; [lia|].
      eapply step_owed; eassumption.
    + injection H as <- _. lia.
Qed.

(** X6.  Every image comes from a line of its own: the number of images
    written never exceeds the number of lines after the header. *)
Theorem images_bounded_by_lines (lines : list str)
    (written : list image_call) (r : result nat) :
  process_lines_ lines = (written, r) ->
  length written <= length (tl lines).
Proof.
  unfold process_lines.
  destruct (run_ initial (tl lines)) as [st r0] eqn:R.
  apply (@run_owed _ initial st r0 0) in R; [|cbn; lia].
  unfold owed in R. destruct r0 as [?|e].
  - destruct (Py.truthy (Py.strip (current_quote st))) eqn:B.
    + apply truthy_strip in B. rewrite B in R.
      unfold emit, rbind. destruct (generate_image _ _ _).
      * intros [= <- _]. cbn [images]. rewrite length_app. cbn [length].
        lia.
      * intros [= <- _]. lia.
    + intros [= <- _]. lia.
  - intros [= <- _]. lia.
Qed.

(** X5.  A quoted field that is never closed is not lost: at the end of
    the input the buffer is emitted as one record, with the empty
    speaker. *)
Theorem unterminated_field_flushed
    (header l0 : str) (ls : list str) :
  Py.startswith l0 [Py.DQUOTE] = true ->
  Forall (fun l => nonblank l /\ closes (unquote l) = false) (l0 :: ls) ->
  let text :=
    Py.strip (fold_left append_piece (map unquote (l0 :: ls)) []) in
  Py.truthy text = true ->
  generate_image text [] (output_path_ 1) = Ok tt ->
  process_lines_ (header :: l0 :: ls)
  = ([Call text [] (output_path_ 1)], Ok 1).
Proof.
  intros Hopen Hall text Htext Hgen.
  inversion Hall as [|? ? [Hnb0 Hc0] Hrest]; subst.
  unfold process_lines. cbn [tl run].
  rewrite (@step_quoted_continue generate_image csv_filename output_dir
             initial l0) by auto.
  rewrite (@run_continue generate_image csv_filename output_dir) by auto.
  cbn [current_quote current_speaker count images initial].
  cbn [map fold_left] in text. fold text. rewrite Htext.
  unfold emit, rbind. cbn [count images app]. now rewrite Hgen.
Qed.

Lemma step_plain (st : pstate) (q sp : str) :
  (forall quote speaker path, generate_image quote speaker path = Ok tt) ->
  in_quote st = false ->
  plain_record (q, sp) ->
  step_ st (plain_line (q, sp))
  = Ok (PState (current_quote st) (current_speaker st) false
          (S (count st))
          (images st ++ [Call (Py.strip q) (Py.strip sp)
                           (output_path_ (S (count st)))])).
Proof.
  intros Hgen Hin (Hnb & Hq & Hs & Ht). unfold nonblank in Hnb.
  cbn [fst snd] in *. unfold step. rewrite Hnb, Hq, Hin. cbn [negb].
  pose proof (@rpartition_comma q sp Hs) as R.
  change (q ++ [Py.COMMA] ++ sp) with (plain_line (q, sp)) in R.
  assert (C : Py.contains [Py.COMMA] (plain_line (q, sp)) = true).
  { destruct (Py.contains [Py.COMMA] (plain_line (q, sp))) eqn:C;
      [reflexivity|].
    apply PyFacts.rpartition_none in C. congruence. }
  rewrite C. unfold Py.rsplit1. rewrite R. cbn [nth length Nat.ltb Nat.leb].
  rewrite Ht. unfold emit_keep. now rewrite Hgen, Hin.
Qed.

Lemma run_plain (records : list (str * str)) :
  (forall q s p, generate_image q s p = Ok tt) ->
  Forall plain_record records ->
  forall st,
    in_quote st = false ->
    run_ st (map plain_line records)
    = (PState (current_quote st) (current_speaker st) false
         (count st + length records)
         (images st
          ++ map (plain_image csv_filename output_dir)
               (combine (seq (S (count st)) (length records)) records)),
       Ok tt).
Proof.
  intros Hgen Hall. induction Hall as [|[q sp] records Hr Hall IH];
    intros st Hin.
  - cbn. rewrite Nat.add_0_r, app_nil_r. destruct st; cbn in *; now subst.
  - cbn [map run]. rewrite (step_plain st Hgen Hin Hr).
    rewrite IH by reflexivity.
    cbn [current_quote current_speaker count images length seq combine map
         plain_image].
    rewrite <- app_assoc. cbn [app]. do 2 f_equal. lia.
Qed.

(** X7.  A file of plain lines, each with a quote that is not blank and
    a speaker without a comma, gives one image per line, in the order of
    the lines, numbered from 1, with the trimmed quote and speaker. *)
Theorem plain_file_one_image_per_line
    (header : str) (records : list (str * str)) :
  (forall q s p, generate_image q s p = Ok tt) ->
  Forall plain_record records ->
  process_lines_ (header :: map plain_line records)
  = (map (plain_image csv_filename output_dir)
       (combine (seq 1 (length records)) records),
     Ok (length records)).
Proof.
  intros Hgen Hall. unfold process_lines. cbn [tl].
  rewrite (run_plain Hgen Hall) by reflexivity.
  reflexivity.
Qed.

End ParserInvariants.

(** X3, on two numbers. *)
Lemma output_path_injective_witness :
  output_path (s!"quotes") (s!"output") 7
  <> output_path (s!"quotes") (s!"output") 1007.
Proof.
  intros H. apply output_path_injective in H. discriminate.
Defined.

Lemma process_csv_numbers_images_witness :
  let written :=
    [Call (s!"Line one") [] (s!"output/quotes_quote_001.png");
     Call (s!"Line two" ++ [Py.DQUOTE]) (s!"Mark Twain")
       (s!"output/quotes_quote_002.png")] in
  map call_path written
  = map (output_path (s!"quotes") (s!"output")) (seq 1 (length written))
  /\ forall n, Ok 2 = Ok n -> n = length written.
Proof.
  apply (@process_csv_numbers_images renders (s!"quotes") (s!"output")
           [s!"header"; Py.DQUOTE :: s!"Line one"; s!"";
            s!"Line two" ++ Py.DQUOTE :: s!",Mark Twain"]).
  vm_compute. reflexivity.
Defined.

Lemma accumulators_tidy_witness :
  current_speaker
    (PState (s!"Line one") [] true 1
       [Call (s!"Be yourself") (s!"Oscar Wilde")
          (s!"output/quotes_quote_001.png")]) = []
  /\ (true = false -> s!"Line one" = []).
Proof.
  apply (@accumulators_tidy renders (s!"quotes") (s!"output")
           [s!"Be yourself, Oscar Wilde"; Py.DQUOTE :: s!"Line one"]
           (PState (s!"Line one") [] true 1
              [Call (s!"Be yourself") (s!"Oscar Wilde")
                 (s!"output/quotes_quote_001.png")]) (Ok tt)).
  vm_compute. reflexivity.
Defined.

Lemma images_bounded_by_lines_witness :
  length [Call (s!"Be yourself") (s!"Oscar Wilde")
            (s!"output/quotes_quote_001.png")]
  <= length (tl [s!"quote,speaker"; s!"Be yourself, Oscar Wilde"; s!"";
                 s!"no delimiter here"]).
Proof.
  apply (@images_bounded_by_lines renders (s!"quotes") (s!"output")
           [s!"quote,speaker"; s!"Be yourself, Oscar Wilde"; s!"";
            s!"no delimiter here"] _ (Ok 1)).
  vm_compute. reflexivity.
Defined.

Lemma unterminated_field_flushed_witness :
  process_lines renders (s!"quotes") (s!"output")
    [s!"header"; Py.DQUOTE :: s!"Line one"; s!"Line two"]
  = ([Call (s!"Line one" ++ Py.NL :: s!"Line two") []
        (s!"output/quotes_quote_001.png")], Ok 1).
Proof.
  apply (@unterminated_field_flushed renders (s!"quotes") (s!"output")
           (s!"header") (Py.DQUOTE :: s!"Line one") [s!"Line two"]).
  - reflexivity.
  - repeat constructor.
  - reflexivity.
  - reflexivity.
Defined.

Lemma plain_file_one_image_per_line_witness :
  process_lines renders (s!"quotes") (s!"output")
    [s!"quote,speaker"; s!"Know thyself, Socrates";
     s!"Be yourself, Oscar Wilde"]
  = ([Call (s!"Know thyself") (s!"Socrates")
        (s!"output/quotes_quote_001.png");
      Call (s!"Be yourself") (s!"Oscar Wilde")
        (s!"output/quotes_quote_002.png")], Ok 2).
Proof.
  apply (@plain_file_one_image_per_line renders (s!"quotes") (s!"output")
           (s!"quote,speaker")
           [(s!"Know thyself", s!" Socrates");
            (s!"Be yourself", s!" Oscar Wilde")]).
  - reflexivity.
  - repeat constructor.
Defined.

(** ** More on the text wrapper *)

Section WrapTextMore.

Variable bbox_right : font -> str -> Z.
Variable split : str -> list str.

Local Abbreviation adjust_ := (adjust bbox_right split).
Local Abbreviation wrap_paragraph_ := (wrap_paragraph bbox_right split).
Local Abbreviation wrap_paragraphs_ := (wrap_paragraphs bbox_right split).
Local Abbreviation wrap_text_ := (_wrap_text bbox_right split).

Lemma lstrip_spaces (s : str) : forallb Py.isspace s = true -> Py.lstrip s = [].
Proof.
  induction s as [|c s IH]; [reflexivity|]. cbn [forallb Py.lstrip].
  intros H. apply andb_true_iff in H as [Hc Hs]. rewrite Hc. auto.
Qed.

Lemma strip_spaces (s : str) : forallb Py.isspace s = true -> Py.strip s = [].
Proof.
  intros H. unfold Py.strip, Py.rstrip. now rewrite (lstrip_spaces _ H).
Qed.

Lemma nonspace_nil_spaces (s : str) :
  nonspace s = [] -> forallb Py.isspace s = true.
Proof.
  induction s as [|c s IH]; [reflexivity|].
  rewrite TextwrapFacts.nonspace_cons. cbn [forallb].
  destruct (Py.isspace c); [exact IH|discriminate].
Qed.

(** A paragraph is blank exactly when it has no character other than
    whitespace. *)
Lemma blank_iff_nonspace (s : str) :
  Py.truthy (Py.strip s) = false <-> nonspace s = [].
Proof.
  split; intros H.
  - now apply TextwrapFacts.strip_nil, TextwrapFacts.falsy_nil.
  - now rewrite (strip_spaces _ (nonspace_nil_spaces _ H)).
Qed.

Lemma split_nl_spaces (text : str) :
  forallb Py.isspace text = true ->
  Forall (fun p => forallb Py.isspace p = true) (Py.split_nl text).
Proof.
  induction text as [|c text IH]; intros H.
  - repeat constructor.
  - cbn [forallb] in H. apply andb_true_iff in H as [Hc Ht].
    specialize (IH Ht). cbn [Py.split_nl].
    destruct (Ascii.eqb c Py.NL); [constructor; [reflexivity|exact IH]|].
    destruct (Py.split_nl text) as [|p ps].
    + repeat constructor. cbn. now rewrite Hc.
    + inversion IH; subst. constructor; [|assumption].
      cbn [forallb]. now rewrite Hc.
Qed.

Lemma split_nl_length (text : str) :
  length (Py.split_nl text) = S (length (filter (Ascii.eqb Py.NL) text)).
Proof.
  induction text as [|c text IH]; [reflexivity|].
  cbn [Py.split_nl filter]. rewrite (Ascii.eqb_sym Py.NL c).
  destruct (Ascii.eqb c Py.NL).
  - cbn [length]. now rewrite IH.
  - destruct (Py.split_nl text); [discriminate|exact IH].
Qed.

Lemma wrap_paragraphs_blank (fnt : font) (max_width : Z)
    (paragraphs : list str) :
  Forall (fun p => forallb Py.isspace p = true) paragraphs ->
  forall lines,
    wrap_paragraphs_ fnt max_width paragraphs lines
    = Ok (lines ++ repeat [] (length paragraphs)).
Proof.
  induction 1 as [|p ps Hp Hps IH]; intros lines.
  - cbn. now rewrite app_nil_r.
  - cbn [wrap_paragraphs]. rewrite (strip_spaces _ Hp). cbn [Py.truthy negb].
    rewrite IH, <- app_assoc. reflexivity.
Qed.

(** X8.  A text of nothing but whitespace gives one empty line for each
    of its paragraphs, that is one more than it has newlines; the font is
    not even measured, so this holds for every font and width. *)
Theorem whitespace_text_gives_empty_lines (text : str) (fnt : font)
    (max_width : Z) :
  forallb Py.isspace text = true ->
  wrap_text_ text fnt max_width
  = Ok (repeat [] (S (length (filter (Ascii.eqb Py.NL) text)))).
Proof.
  intros H. unfold _wrap_text.
  rewrite (wrap_paragraphs_blank fnt max_width (split_nl_spaces _ H)).
  now rewrite split_nl_length.
Qed.

Lemma wrap_paragraphs_zero_width (fnt : font) (max_width : Z)
    (paragraphs : list str) :
  bbox_right fnt (s!"x") = 0%Z ->
  nonspace (concat paragraphs) <> [] ->
  forall lines,
    wrap_paragraphs_ fnt max_width paragraphs lines = Raise ZeroDivisionError.
Proof.
  intros Hx. induction paragraphs as [|p ps IH]; intros Hn lines.
  - now contradiction Hn.
  - cbn [wrap_paragraphs].
    destruct (Py.truthy (Py.strip p)) eqn:B; cbn [negb].
    + unfold wrap_paragraph. now rewrite Hx.
    + apply IH. cbn [concat] in Hn.
      rewrite TextwrapFacts.nonspace_app in Hn.
      apply blank_iff_nonspace in B. now rewrite B in Hn.
Qed.

(** X9.  With a font whose ["x"] has the width 0, every text that holds
    a character other than whitespace makes [_wrap_text] raise
    [ZeroDivisionError], whatever the maximal width. *)
Theorem zero_width_x_raises (text : str) (fnt : font) (max_width : Z) :
  bbox_right fnt (s!"x") = 0%Z ->
  nonspace text <> [] ->
  wrap_text_ text fnt max_width = Raise ZeroDivisionError.
Proof.
  intros Hx Hn. unfold _wrap_text.
  apply wrap_paragraphs_zero_width; [exact Hx|].
  now rewrite split_nl_nonspace.
Qed.

(** X10.  The lines [_wrap_text] adds for a paragraph are always those
    of the first [textwrap.wrap], at the budget computed from the width
    of ["x"]: the shrunken budget and the re-wrap never reach the
    result. *)
Theorem rewrap_never_reaches_result (fnt : font) (max_width : Z)
    (paragraph : str) (ls : list str) :
  wrap_paragraph_ fnt max_width paragraph = Ok ls ->
  Textwrap.wrap split paragraph (budget bbox_right fnt max_width) = Ok ls.
Proof. apply wrap_paragraph_first_wrap. Qed.

Lemma adjust_quiet (fnt : font) (max_width : Z) (paragraph : str)
    (iter : list str) :
  Forall (fun l => (bbox_right fnt l <= max_width)%Z) iter ->
  forall cpl wrapped final,
    adjust_ fnt max_width paragraph iter cpl wrapped final
    = Ok (cpl, wrapped, final ++ iter).
Proof.
  induction 1 as [|l iter Hl Hiter IH]; intros cpl wrapped final.
  - cbn. now rewrite app_nil_r.
  - cbn [adjust].
    assert (E : (max_width <? bbox_right fnt l)%Z = false)
      by (apply Z.ltb_ge; lia).
    rewrite E. cbn [andb]. rewrite IH, <- app_assoc. reflexivity.
Qed.

Hypothesis split_concat : forall text, concat (split text) = text.

Lemma wrap_paragraph_narrow (fnt : font) (max_width : Z) (paragraph : str) :
  bbox_right fnt (s!"x") <> 0%Z ->
  (forall l, (Py.len l <= budget bbox_right fnt max_width)%Z ->
             (bbox_right fnt l <= max_width)%Z) ->
  exists ls,
    wrap_paragraph_ fnt max_width paragraph = Ok ls
    /\ Forall (fun l => (bbox_right fnt l <= max_width)%Z) ls.
Proof.
  intros Hx Hnarrow. unfold wrap_paragraph.
  destruct (bbox_right fnt (s!"x") =? 0)%Z eqn:E;
    [apply Z.eqb_eq in E; contradiction|].
  fold (budget bbox_right fnt max_width).
  destruct (Textwrap.wrap split paragraph (budget bbox_right fnt max_width))
    as [wrapped|e] eqn:W.
  - apply (@TextwrapFacts.wrap_ok split split_concat) in W as (_ & _ & Wl).
    assert (F : Forall (fun l => (bbox_right fnt l <= max_width)%Z) wrapped).
    { eapply Forall_impl; [|exact Wl]. exact Hnarrow. }
    cbn [rbind]. rewrite (@adjust_quiet fnt max_width paragraph wrapped F).
    cbn [rbind app].
    exists wrapped. split; [now destruct wrapped|exact F].
  - apply TextwrapFacts.wrap_raises in W as [W _]. unfold budget in W. lia.
Qed.

(** X11.  For a font in which no text of at most budget characters is
    wider than the maximal width (a fixed-pitch font is one), and whose
    ["x"] is not of width 0, [_wrap_text] returns for every text, and
    every line it returns fits the maximal width. *)
Theorem narrow_font_lines_fit (text : str) (fnt : font) (max_width : Z) :
  bbox_right fnt (s!"x") <> 0%Z ->
  (forall l, (Py.len l <= budget bbox_right fnt max_width)%Z ->
             (bbox_right fnt l <= max_width)%Z) ->
  exists ls,
    wrap_text_ text fnt max_width = Ok ls
    /\ Forall (fun l => (bbox_right fnt l <= max_width)%Z) ls.
Proof.
  intros Hx Hnarrow. unfold _wrap_text.
  assert (G : forall paragraphs lines,
            Forall (fun l => (bbox_right fnt l <= max_width)%Z) lines ->
            exists ls,
              wrap_paragraphs_ fnt max_width paragraphs lines = Ok ls
              /\ Forall (fun l => (bbox_right fnt l <= max_width)%Z) ls).
  { induction paragraphs as [|p ps IH]; intros lines F.
    - exists lines. split; [reflexivity|exact F].
    - cbn [wrap_paragraphs].
      destruct (negb (Py.truthy (Py.strip p))).
      + apply IH, Forall_app. split; [exact F|].
        constructor; [|constructor]. apply Hnarrow.
        unfold budget, Py.len. cbn [length]. lia.
      + destruct (wrap_paragraph_narrow p Hx Hnarrow) as (wl & -> & Fw).
        cbn [rbind]. apply IH, Forall_app. now split. }
  apply G. constructor.
Qed.

Lemma wrap_paragraphs_length (fnt : font) (max_width : Z)
    (paragraphs : list str) :
  forall lines ls,
    wrap_paragraphs_ fnt max_width paragraphs lines = Ok ls ->
    length lines + length paragraphs <= length ls.
Proof.
  induction paragraphs as [|p ps IH]; intros lines ls H.
  - cbn [wrap_paragraphs] in H. injection H as <-. cbn [length]. lia.
  - cbn [wrap_paragraphs length] in *.
    destruct (Py.truthy (Py.strip p)) eqn:B; cbn [negb] in H.
    + destruct (wrap_paragraph_ fnt max_width p) as [wl|e] eqn:W;
        [|discriminate].
      cbn [rbind] in H. apply IH in H. rewrite length_app in H.
      apply wrap_paragraph_first_wrap in W.
      apply (@TextwrapFacts.wrap_ok split split_concat) in W as (_ & Wn & _).
      destruct wl as [|l wl]; [|cbn [length] in H; lia].
      exfalso. cbn in Wn. symmetry in Wn.
      apply blank_iff_nonspace in Wn. congruence.
    + apply IH in H. rewrite length_app in H. cbn [length] in H. lia.
Qed.

(** X12.  [_wrap_text] never loses a paragraph: it returns at least one
    line for each paragraph of the text, so at least one more line than
    the text has newlines. *)
Theorem wrap_text_line_per_paragraph (text : str) (fnt : font)
    (max_width : Z) (ls : list str) :
  wrap_text_ text fnt max_width = Ok ls ->
  S (length (filter (Ascii.eqb Py.NL) text)) <= length ls.
Proof.
  unfold _wrap_text. intros H. apply wrap_paragraphs_length in H.
  rewrite split_nl_length in H. exact H.
Qed.

End WrapTextMore.

Lemma whitespace_text_gives_empty_lines_witness :
  wrap_text_example [Py.SPACE; Py.NL; Py.TAB; Py.NL] (Truetype pacifico 24)
    150
  = Ok [[]; []; []].
Proof.
  apply (@whitespace_text_gives_empty_lines text_width Textwrap.split_runs
           [Py.SPACE; Py.NL; Py.TAB; Py.NL] (Truetype pacifico 24) 150).
  reflexivity.
Defined.

Lemma zero_width_x_raises_witness :
  _wrap_text no_glyphs Textwrap.split_runs (s!"Be yourself")
    (Truetype pacifico 24) 150
  = Raise ZeroDivisionError.
Proof.
  apply zero_width_x_raises; [reflexivity|discriminate].
Defined.

Lemma rewrap_never_reaches_result_witness :
  Textwrap.wrap Textwrap.split_runs (s!"Never doubt yourself")
    (budget text_width (Truetype pacifico 24) 150)
  = Ok [s!"Never doubt"; s!"yourself"].
Proof.
  apply (@rewrap_never_reaches_result text_width Textwrap.split_runs
           (Truetype pacifico 24) 150).
  vm_compute. reflexivity.
Defined.

Lemma default_font_width (text : str) :
  text_width Default text = (6 * Py.len text)%Z.
Proof.
  unfold Py.len. induction text as [|c text IH]; [reflexivity|].
  change (text_width Default (c :: text))
    with (6 + text_width Default text)%Z.
  rewrite IH. cbn [length]. lia.
Qed.

Lemma narrow_font_lines_fit_witness :
  exists ls,
    wrap_text_example (s!"The quick brown fox jumps over the lazy dog")
      Default 120 = Ok ls
    /\ Forall (fun l => (text_width Default l <= 120)%Z) ls.
Proof.
  apply (@narrow_font_lines_fit text_width Textwrap.split_runs
           TextwrapFacts.split_runs_concat).
  - discriminate.
  - intros l. rewrite default_font_width.
    change (budget text_width Default 120) with 20%Z. lia.
Defined.

Lemma wrap_text_line_per_paragraph_witness :
  S (length (filter (Ascii.eqb Py.NL)
               (s!"Line one" ++ Py.NL :: s!"Line two")))
  <= length [s!"Line one"; s!"Line two"].
Proof.
  apply (@wrap_text_line_per_paragraph text_width Textwrap.split_runs
           TextwrapFacts.split_runs_concat
           (s!"Line one" ++ Py.NL :: s!"Line two") (Truetype pacifico 24)
           768).
  vm_compute. reflexivity.
Defined.

(** ** More on the layout fitter *)

Section FitMore.

Variable bbox_right : font -> str -> Z.
Variable bbox_bottom : font -> str -> Z.
Variable truetype_loads : str -> Z -> bool.
Variable speaker_font_path : option str.
Variable split : str -> list str.
Variable text : str.
Variable speaker : option str.
Variable max_width max_height : Z.
Variable choice : nat -> option str.

Local Abbreviation try_size_ :=
  (try_size bbox_right bbox_bottom truetype_loads speaker_font_path split
     text speaker max_width max_height).
Local Abbreviation fallback_ :=
  (fallback bbox_right truetype_loads speaker_font_path split text max_width).
Local Abbreviation calculate_font_size_ :=
  (_calculate_font_size bbox_right bbox_bottom truetype_loads
     speaker_font_path split text speaker max_width max_height choice).
Local Abbreviation size_at k := (120 - 2 * Z.of_nat k)%Z.

(** X13.  The fitter tries the sizes 120, 118, ..., 20, in this order
    and at most 51 of them.  When it returns, it returns the layout of the
    first size whose block fits, a size from 20 to 120, or, when none of
    the 51 sizes fits, the layout of the fallback at size 20.  When it
    raises, a turn or the fallback raised after turns that did not
    fit. *)
Theorem fitter_first_fit_or_fallback :
  match _calculate_font_size bbox_right bbox_bottom truetype_loads
          speaker_font_path split text speaker max_width max_height choice
  with
  | Ok l =>
      (exists k, k < 51
         /\ quote_font_size l = size_at k
         /\ (20 <= quote_font_size l <= 120)%Z
         /\ try_size_ (choice k) (size_at k) = Ok (Some l)
         /\ forall j, j < k -> try_size_ (choice j) (size_at j) = Ok None)
      \/ ((forall j, j < 51 -> try_size_ (choice j) (size_at j) = Ok None)
          /\ fallback_ (choice 51) = Ok l
          /\ quote_font_size l = 20%Z)
  | Raise e =>
      (exists k, k < 51
         /\ try_size_ (choice k) (size_at k) = Raise e
         /\ forall j, j < k -> try_size_ (choice j) (size_at j) = Ok None)
      \/ ((forall j, j < 51 -> try_size_ (choice j) (size_at j) = Ok None)
          /\ fallback_ (choice 51) = Raise e)
  end.
Proof. apply calculate_font_size_cases. Qed.

(** X14.  When [_wrap_text] returns for the fonts of the sizes from 20
    to 120, the fitter returns a layout, with a quote size from 20 to
    120. *)
Theorem fitter_returns_when_wrapping_does :
  (forall drawn size, (20 <= size <= 120)%Z ->
     exists ls,
       _wrap_text bbox_right split text
         (_get_random_font truetype_loads drawn size) max_width = Ok ls) ->
  exists l, calculate_font_size_ = Ok l /\ (20 <= quote_font_size l <= 120)%Z.
Proof.
  intros Hw. pose proof calculate_font_size_cases as C.
  specialize (C bbox_right bbox_bottom truetype_loads speaker_font_path
                split text speaker max_width max_height choice).
  destruct calculate_font_size_ as [l|e].
  - exists l. split; [reflexivity|].
    destruct C as [(k & _ & _ & H & _)|(_ & _ & H)]; [exact H|lia].
  - exfalso. destruct C as [(k & Hk & H & _)|(_ & H)].
    + apply try_size_raise in H.
      destruct (Hw (choice k) (size_at k) ltac:(lia)) as [ls E]. congruence.
    + unfold fallback in H.
      destruct (Hw (choice 51) 20%Z ltac:(lia)) as [ls E].
      rewrite E in H. discriminate.
Qed.

(** X15.  Whenever the fitter returns, the quote size is even, and the
    speaker size is [max(14, floor(2 * quote size / 5))], or 12 in the
    fallback at quote size 20: it is always between 12 and 48. *)
Theorem speaker_size_range (l : layout) :
  calculate_font_size_ = Ok l ->
  Z.even (quote_font_size l) = true
  /\ (speaker_font_size l = Z.max 14 (2 * quote_font_size l / 5)
      \/ (speaker_font_size l = 12 /\ quote_font_size l = 20))%Z
  /\ (12 <= speaker_font_size l <= 48)%Z.
Proof.
  intros H. pose proof calculate_font_size_cases as C.
  specialize (C bbox_right bbox_bottom truetype_loads speaker_font_path
                split text speaker max_width max_height choice).
  rewrite H in C. destruct C as [(k & Hk & Hq & Hr & Ht & _)|(_ & Hf & Hq)].
  - apply try_size_some in Ht as (_ & Hs & _).
    rewrite FloatFacts.two_fifths in Hs by lia. rewrite <- Hq in Hs.
    split; [|split; [now left|]].
    + rewrite Hq, Z.even_sub, Z.even_mul. reflexivity.
    + rewrite Hs.
      assert (2 * quote_font_size l / 5 <= 48)%Z
        by (apply Z.div_le_upper_bound; lia).
      lia.
  - unfold fallback in Hf.
    destruct (_wrap_text bbox_right split text _ max_width); [|discriminate].
    cbn [rbind] in Hf. injection Hf as <-.
    cbn [quote_font_size speaker_font_size].
    change (Z.max 12 (Float.int_mul 20 Float.c0_4)) with 12%Z.
    split; [reflexivity|]. split; [now right|lia].
Qed.

End FitMore.

Lemma example_font_wraps (path : str) (size : Z) :
  (20 <= size <= 120)%Z ->
  exists ls,
    wrap_text_example (s!"Be yourself") (Truetype path size) 768 = Ok ls.
Proof.
  intros H.
  pose proof (@FloatFacts.below
    (fun z => match wrap_text_example (s!"Be yourself")
                      (Truetype path z) 768 with
              | Ok _ => true
              | Raise _ => (z <? 20)%Z
              end) 121) as B.
  specialize (B ltac:(vm_compute; reflexivity) size ltac:(lia)).
  cbv beta in B.
  destruct (wrap_text_example (s!"Be yourself") (Truetype path size) 768)
    as [ls|e]; [now exists ls|].
  apply Z.ltb_lt in B. lia.
Qed.

Lemma fitter_returns_when_wrapping_does_witness :
  exists l,
    fit_example (s!"Be yourself") None 768 540 = Ok l
    /\ (20 <= quote_font_size l <= 120)%Z.
Proof.
  apply (@fitter_returns_when_wrapping_does text_width text_height
           every_font_loads (Some dejavu) Textwrap.split_runs
           (s!"Be yourself") None 768 540 always_pacifico).
  intros drawn size H.
  destruct drawn as [p|].
  - cbn [_get_random_font every_font_loads].
    destruct (example_font_wraps p H) as [ls E]. exists ls. exact E.
  - eexists. vm_compute. reflexivity.
Defined.

Lemma speaker_size_range_witness :
  Z.even 120 = true
  /\ (48 = Z.max 14 (2 * 120 / 5) \/ (48 = 12 /\ 120 = 20))%Z
  /\ (12 <= 48 <= 48)%Z.
Proof.
  apply (@speaker_size_range text_width text_height every_font_loads
           (Some dejavu) Textwrap.split_runs (s!"Be yourself") None 768 540
           always_pacifico
           (Layout 120 (Truetype pacifico 120) 48 (Truetype dejavu 48)
              [s!"Be yourself"])).
  vm_compute. reflexivity.
Defined.

(** ** More on font resolution *)

Section FontsMore.

Variable path_exists : str -> bool.

Local Abbreviation found_in_ := (found_in path_exists).

Lemma first_ext_exists (font_path font_name : str) (es : list str)
    (font_file : str) :
  first_ext path_exists font_path font_name es = Some font_file ->
  path_exists font_file = true.
Proof.
  induction es as [|e es IH]; [discriminate|]. cbn [first_ext].
  destruct (path_exists (Py.path_join font_path (font_name ++ e))) eqn:E.
  - now intros [= <-].
  - exact IH.
Qed.

Lemma found_fonts_exist (font_paths names : list str) (font_file : str) :
  In font_file (found_fonts path_exists font_paths names) ->
  path_exists font_file = true.
Proof.
  unfold found_fonts. rewrite scan_paths_flat_map. cbn [app].
  intros H. apply in_flat_map in H as (d & _ & H).
  destruct (path_exists d); [|contradiction].
  apply in_flat_map in H as (n & _ & H). unfold found_in in H.
  destruct (first_ext path_exists d n exts) as [f|] eqn:E; [|contradiction].
  destruct H as [<-|[]]. eapply first_ext_exists; eassumption.
Qed.

(** X16.  The available set is never empty, so a font can always be
    drawn from it: it is either the default font alone, when no file was
    found, or a list of font files that all exist. *)
Theorem available_fonts_never_empty (font_paths names : list str) :
  let available := _find_available_fonts path_exists font_paths names in
  available <> []
  /\ (available = [None]
      \/ Forall (fun entry => exists font_file,
                   entry = Some font_file
                   /\ path_exists font_file = true) available).
Proof.
  unfold _find_available_fonts.
  pose proof (@found_fonts_exist font_paths names) as E.
  destruct (found_fonts path_exists font_paths names) as [|f fs].
  - split; [discriminate|now left].
  - split; [discriminate|]. right. apply Forall_forall.
    intros entry H. apply in_map_iff in H as (x & <- & Hx).
    exists x. split; [reflexivity|now apply E].
Qed.

Lemma hd_error_app (A : Type) (a b : list A) :
  hd_error (a ++ b)
  = match hd_error a with Some x => Some x | None => hd_error b end.
Proof. now destruct a. Qed.

Lemma normal_in_head (font_path : str) (names : list str) :
  normal_in path_exists font_path names
  = hd_error (flat_map (found_in_ font_path) names).
Proof.
  induction names as [|n names IH]; [reflexivity|].
  cbn [normal_in flat_map]. rewrite hd_error_app. unfold found_in at 1.
  destruct (first_ext path_exists font_path n exts); [reflexivity|exact IH].
Qed.

(** X17.  The speaker font is the first file that the scan of
    [_find_available_fonts] would list for the speaker identifiers, in
    the same order of directories, identifiers and extensions; when it
    is a file, that file exists. *)
Theorem normal_font_is_first_found (font_paths names : list str) :
  _find_normal_font path_exists names font_paths
  = hd_error (found_fonts path_exists font_paths names)
  /\ forall font_file,
       _find_normal_font path_exists names font_paths = Some font_file ->
       path_exists font_file = true.
Proof.
  assert (E : _find_normal_font path_exists names font_paths
              = hd_error (found_fonts path_exists font_paths names)).
  { unfold found_fonts. rewrite scan_paths_flat_map. cbn [app].
    induction font_paths as [|d ds IH]; [reflexivity|].
    cbn [_find_normal_font flat_map]. rewrite hd_error_app.
    destruct (path_exists d); [|exact IH].
    rewrite normal_in_head.
    destruct (hd_error (flat_map (found_in_ d) names)); [reflexivity|exact IH]. }
  split; [exact E|].
  intros f H. rewrite E in H.
  apply (@found_fonts_exist font_paths names).
  destruct (found_fonts path_exists font_paths names) as [|x xs];
    [discriminate|]. injection H as <-. now left.
Qed.

End FontsMore.

(** ** The speaker test *)

Lemma upper_char_cases (c : ascii) :
  Ascii.eqb (Py.upper_char c) "N" = Ascii.eqb c "N" || Ascii.eqb c "n"
  /\ Ascii.eqb (Py.upper_char c) "U" = Ascii.eqb c "U" || Ascii.eqb c "u"
  /\ Ascii.eqb (Py.upper_char c) "L" = Ascii.eqb c "L" || Ascii.eqb c "l".
Proof.
  destruct c as [[] [] [] [] [] [] [] []]; repeat split; reflexivity.
Qed.

Lemma upper_is_null (sp : str) :
  Py.upper sp = s!"NULL" <->
  exists a b c d,
    sp = [a; b; c; d]
    /\ (a = "N" \/ a = "n")%char /\ (b = "U" \/ b = "u")%char
    /\ (c = "L" \/ c = "l")%char /\ (d = "L" \/ d = "l")%char.
Proof.
  assert (K : forall (c u : ascii) (lo : ascii),
            Ascii.eqb (Py.upper_char c) u = Ascii.eqb c u || Ascii.eqb c lo ->
            Py.upper_char c = u -> c = u \/ c = lo).
  { intros c u lo E H. apply Ascii.eqb_eq in H. rewrite H in E.
    symmetry in E. apply orb_true_iff in E as [E|E];
      apply Ascii.eqb_eq in E; auto. }
  split.
  - destruct sp as [|a [|b [|c [|d [|e sp]]]]]; try discriminate.
    cbn [Py.upper map]. intros [= Ha Hb Hc Hd].
    exists a, b, c, d. split; [reflexivity|].
    repeat split;
      [apply (K a _ _ (proj1 (upper_char_cases a)) Ha)
      |apply (K b _ _ (proj1 (proj2 (upper_char_cases b))) Hb)
      |apply (K c _ _ (proj2 (proj2 (upper_char_cases c))) Hc)
      |apply (K d _ _ (proj2 (proj2 (upper_char_cases d))) Hd)].
  - intros (a & b & c & d & -> & [-> | ->] & [-> | ->] & [-> | ->]
            & [-> | ->]); reflexivity.
Qed.

Lemma eqb_str_true (a b : str) : Py.eqb_str a b = true <-> a = b.
Proof.
  unfold Py.eqb_str. destruct (list_eq_dec ascii_dec a b); split;
    congruence.
Qed.

(** X18.  A speaker counts as absent exactly when it is [None], has no
    character other than whitespace, or is one of the spellings of
    [NULL] in upper or lower case letters, with nothing around it: the
    spelling is tested on the speaker as given, not on the trimmed
    one. *)
Theorem absent_speaker (speaker : option str) :
  has_speaker speaker = false <->
  speaker = None
  \/ exists sp, speaker = Some sp
       /\ (nonspace sp = []
           \/ exists a b c d,
                sp = [a; b; c; d]
                /\ (a = "N" \/ a = "n")%char /\ (b = "U" \/ b = "u")%char
                /\ (c = "L" \/ c = "l")%char /\ (d = "L" \/ d = "l")%char).
Proof.
  destruct speaker as [sp|]; cbn [has_speaker].
  - split.
    + intros H. right. exists sp. split; [reflexivity|].
      destruct (Py.truthy (Py.strip sp)) eqn:B.
      * right. apply upper_is_null, eqb_str_true.
        rewrite (truthy_strip _ B) in H. cbn [andb] in H.
        now destruct (Py.eqb_str (Py.upper sp) (s!"NULL")).
      * left. now apply TextwrapFacts.strip_nil, TextwrapFacts.falsy_nil.
    + intros [H|(sp' & [= <-] & [H|H])]; [discriminate| |].
      * assert (B : Py.truthy (Py.strip sp) = false).
        { destruct (Py.truthy (Py.strip sp)) eqn:B; [|reflexivity].
          exfalso. revert B. clear -H.
          assert (S : Py.strip sp = []); [|now rewrite S].
          unfold Py.strip, Py.rstrip.
          assert (L : Py.lstrip sp = []).
          { induction sp as [|c sp IH]; [reflexivity|].
            rewrite TextwrapFacts.nonspace_cons in H. cbn [Py.lstrip].
            destruct (Py.isspace c); [auto|discriminate]. }
          now rewrite L. }
        rewrite B. now rewrite andb_false_r.
      * apply upper_is_null, eqb_str_true in H. rewrite H.
        now rewrite andb_false_r.
  - split; [now left|reflexivity].
Qed.

Lemma absent_speaker_witness :
  has_speaker (Some (s!"nUlL")) = false
  /\ has_speaker (Some (s!" NULL")) = true.
Proof.
  split; [|reflexivity].
  apply absent_speaker. right. exists (s!"nUlL"). split; [reflexivity|].
  right. exists "n"%char, "U"%char, "l"%char, "L"%char.
  repeat split; auto.
Defined.

(** ** The content box of [generate_image] *)

Lemma margins_exact (z : Z) :
  (0 <= z < 10000)%Z ->
  Float.int_mul z Float.c0_02 = (z / 50)%Z
  /\ Float.int_mul z Float.c0_05 = (z / 20)%Z.
Proof.
  intros H.
  pose proof (@FloatFacts.below
           (fun z => (Float.int_mul z Float.c0_02 =? z / 50)%Z
                     && (Float.int_mul z Float.c0_05 =? z / 20)%Z) 10000)
    as B.
  specialize (B ltac:(vm_compute; reflexivity) z H). cbv beta in B.
  apply andb_true_iff in B as [B1 B2].
  apply Z.eqb_eq in B1, B2. now split.
Qed.

(** X19.  On a canvas of less than 10000 pixels a side, the margins
    computed in floating point are exactly [floor(width / 50)] and
    [floor(height / 20)]: the layout [generate_image] returns is that of
    the fitter for the box of [width - 2 * floor(width / 50)] by
    [height - 2 * floor(height / 20)], on the quote put between quote
    marks when there is a speaker and it does not start with one. *)
Theorem generate_image_content_box
    (bbox_right bbox_bottom : font -> str -> Z)
    (truetype_loads : str -> Z -> bool) (speaker_font_path : option str)
    (split : str -> list str) (save : str -> result unit)
    (width height : Z) (choice : nat -> option str)
    (quote : str) (speaker output_path : option str) (l : layout) :
  (0 <= width < 10000)%Z -> (0 <= height < 10000)%Z ->
  generate_image bbox_right bbox_bottom truetype_loads speaker_font_path
    split save width height choice quote speaker output_path = Ok l ->
  _calculate_font_size bbox_right bbox_bottom truetype_loads
    speaker_font_path split
    (if has_speaker speaker && negb (Py.startswith quote [Py.DQUOTE])
     then Py.DQUOTE :: quote ++ [Py.DQUOTE] else quote)
    speaker (width - 2 * (width / 50)) (height - 2 * (height / 20)) choice
  = Ok l.
Proof.
  intros Hw Hh. unfold generate_image.
  rewrite (proj1 (margins_exact Hw)), (proj2 (margins_exact Hh)).
  destruct (_calculate_font_size _ _ _ _ _ _ _ _ _ _) as [l'|e];
    [|discriminate].
  cbn [rbind]. destruct output_path as [p|]; [|now intros [= <-]].
  destruct (Py.truthy p); [|now intros [= <-]].
  destruct (save p); [cbn [rbind]; now intros [= <-]|discriminate].
Qed.

Lemma generate_image_content_box_witness :
  fit_example (Py.DQUOTE :: s!"Be yourself" ++ [Py.DQUOTE])
    (Some (s!"Oscar Wilde")) (800 - 2 * (800 / 50)) (600 - 2 * (600 / 20))
  = Ok (Layout 120 (Truetype pacifico 120) 48 (Truetype dejavu 48)
          [Py.DQUOTE :: s!"Be"; s!"yourself" ++ [Py.DQUOTE]]).
Proof.
  apply (@generate_image_content_box text_width text_height every_font_loads
           (Some dejavu) Textwrap.split_runs (fun _ => Ok tt) 800 600
           always_pacifico (s!"Be yourself") (Some (s!"Oscar Wilde"))
           (Some (s!"output/quotes_quote_001.png"))); [lia|lia|].
  vm_compute. reflexivity.
Defined.

(** ** The project root *)

Section ProjectRootFacts.

Variable exists_ : Pathlib.path -> bool.

Local Abbreviation has_marker_ := (Pathlib.has_marker exists_).
Local Abbreviation walk_up_ := (Pathlib.walk_up exists_).

Lemma walk_up_spec (reversed : list str) :
  match walk_up_ reversed with
  | Some root =>
      exists i, i <= length reversed
        /\ root = rev (skipn i reversed)
        /\ has_marker_ root = true
        /\ forall j, j < i -> has_marker_ (rev (skipn j reversed)) = false
  | None =>
      forall j, j <= length reversed ->
        has_marker_ (rev (skipn j reversed)) = false
  end.
Proof.
  induction reversed as [|c up IH].
  - cbn [Pathlib.walk_up]. destruct (has_marker_ (rev [])) eqn:M.
    + exists 0. repeat split; auto. intros j Hj. inversion Hj.
    + intros j Hj. now destruct j.
  - cbn [Pathlib.walk_up]. destruct (has_marker_ (rev (c :: up))) eqn:M.
    + exists 0. repeat split; auto; [cbn [length]; lia|].
      intros j Hj. inversion Hj.
    + destruct (walk_up_ up) as [root|].
      * destruct IH as (i & Hi & Hr & Hm & Hb).
        exists (S i). cbn [length skipn]. repeat split; auto; [lia|].
        intros [|j] Hj; [exact M|]. cbn [skipn]. apply Hb. lia.
      * intros [|j] Hj; [exact M|]. cbn [skipn]. apply IH.
        cbn [length] in Hj. lia.
Qed.

(** X20.  [find_project_root] returns the nearest directory, from the
    start directory up to the root of the file system, that holds a
    [pyproject.toml]: no directory between it and the start holds one;
    it returns [None] exactly when none of these directories, the root
    included, holds one. *)
Theorem project_root_is_nearest (start : Pathlib.path) :
  match Pathlib.find_project_root exists_ start with
  | Some root =>
      exists k, k <= length start
        /\ root = firstn k start
        /\ has_marker_ root = true
        /\ forall j, k < j <= length start ->
             has_marker_ (firstn j start) = false
  | None =>
      forall j, j <= length start -> has_marker_ (firstn j start) = false
  end.
Proof.
  unfold Pathlib.find_project_root.
  pose proof (walk_up_spec (rev start)) as W.
  assert (E : forall i, i <= length start ->
            rev (skipn i (rev start)) = firstn (length start - i) start).
  { intros i Hi. now rewrite skipn_rev, rev_involutive. }
  rewrite length_rev in W.
  destruct (walk_up_ (rev start)) as [root|].
  - destruct W as (i & Hi & Hr & Hm & Hb).
    exists (length start - i). rewrite <- E by assumption.
    repeat split; auto; [lia|].
    intros j Hj. specialize (Hb (length start - j) ltac:(lia)).
    rewrite E in Hb by lia.
    now replace (length start - (length start - j)) with j in Hb by lia.
  - intros j Hj. specialize (W (length start - j) ltac:(lia)).
    rewrite E in W by lia.
    now replace (length start - (length start - j)) with j in W by lia.
Qed.

End ProjectRootFacts.

(** ** The file name of an ad-hoc image *)

Module AdhocFacts.

Import Py PyChars.

Lemma lstrip_char_spec (x : ascii) (s : str) :
  (exists k, s = repeat x k ++ lstrip_char x s)
  /\ hd_error (lstrip_char x s) <> Some x.
Proof.
  induction s as [|c s [[k IH] Hh]].
  - split; [now exists 0|discriminate].
  - cbn [lstrip_char]. destruct (Ascii.eqb c x) eqn:E.
    + apply Ascii.eqb_eq in E. subst c. split; [|exact Hh].
      exists (S k). cbn [repeat app]. now rewrite <- IH.
    + split; [now exists 0|]. cbn. intros [= ->].
      now rewrite Ascii.eqb_refl in E.
Qed.

(** What [strip] with one character leaves: a piece of the string that
    neither starts nor ends with that character. *)
Lemma strip_char_spec (x : ascii) (s : str) :
  (exists k k', s = repeat x k ++ strip_char x s ++ repeat x k')
  /\ hd_error (strip_char x s) <> Some x
  /\ hd_error (rev (strip_char x s)) <> Some x.
Proof.
  unfold strip_char.
  destruct (lstrip_char_spec x s) as [[k Hk] Hh].
  destruct (lstrip_char_spec x (rev (lstrip_char x s))) as [[k' Hk'] Hh'].
  set (t := lstrip_char x s) in *.
  set (w := lstrip_char x (rev t)) in *.
  assert (T : t = rev w ++ repeat x k').
  { rewrite <- (rev_involutive t), Hk', rev_app_distr, rev_repeat.
    reflexivity. }
  split; [|split].
  - exists k, k'. now rewrite <- T.
  - destruct (rev w) as [|c r] eqn:R; [discriminate|].
    rewrite T in Hh. exact Hh.
  - now rewrite rev_involutive.
Qed.

Lemma strip_char_Forall (P : ascii -> Prop) (x : ascii) (s : str) :
  Forall P s -> Forall P (strip_char x s).
Proof.
  destruct (strip_char_spec x s) as [(k & k' & E) _]. intros F.
  rewrite E in F. apply Forall_app in F as [_ F].
  now apply Forall_app in F as [F _].
Qed.

Lemma strip_char_length (x : ascii) (s : str) :
  length (strip_char x s) <= length s.
Proof.
  destruct (strip_char_spec x s) as [(k & k' & E) _].
  rewrite E at 2. rewrite !length_app. lia.
Qed.

Lemma not_in_contains (c : ascii) (s : str) :
  ~ In c s -> contains [c] s = false.
Proof.
  induction s as [|d s IH]; intros H; [reflexivity|].
  rewrite PyFacts.contains_cons. cbn [startswith].
  destruct (Ascii.eqb c d) eqn:E.
  - apply Ascii.eqb_eq in E. subst d. exfalso. apply H. now left.
  - cbn [andb orb]. apply IH. intros I. apply H. now right.
Qed.

Lemma rpartition_char (c : ascii) (left right : str) :
  ~ In c right ->
  rpartition [c] (left ++ [c] ++ right) = Some (left, right).
Proof.
  intros H. apply not_in_contains in H.
  induction left as [|d q IH].
  - cbn [app]. rewrite PyFacts.rpartition_cons.
    apply PyFacts.rpartition_none in H. rewrite H.
    pose proof (PyFacts.startswith_app [c] right) as S.
    cbn [app] in S. rewrite S. reflexivity.
  - cbn [app] in *. rewrite PyFacts.rpartition_cons. now rewrite IH.
Qed.

(** The last component of a directory joined with a name that holds no
    slash is that name. *)
Lemma basename_join (dir name : str) :
  ~ In SLASH name -> basename (path_join dir name) = name.
Proof.
  intros H. unfold path_join.
  assert (B : basename name = name).
  { unfold basename.
    pose proof (@not_in_contains SLASH name H) as C.
    apply PyFacts.rpartition_none in C. fold SLASH. now rewrite C. }
  destruct (startswith name [ch 47]); [exact B|].
  destruct (negb (truthy dir) || endswith dir [ch 47]) eqn:E.
  - destruct dir as [|d dir]; [exact B|]. cbn [truthy negb orb] in E.
    unfold endswith in E. change (rev [ch 47]) with [SLASH] in E.
    destruct (rev (d :: dir)) as [|z zs] eqn:R; [discriminate|].
    cbn [startswith] in E. apply andb_true_iff in E as [E _].
    apply Ascii.eqb_eq in E. subst z.
    assert (D : d :: dir = rev zs ++ [SLASH]).
    { rewrite <- (rev_involutive (d :: dir)), R. reflexivity. }
    rewrite D, <- app_assoc. unfold basename. fold SLASH.
    now rewrite (@rpartition_char SLASH (rev zs) name H).
  - unfold basename. fold SLASH.
  now rewrite (@rpartition_char SLASH dir name H).
Qed.

End AdhocFacts.

Lemma safe_quote_spec (quote : str) :
  Forall (fun c => PyChars.isalnum c = true \/ c = PyChars.UNDERSCORE)
    (safe_quote quote)
  /\ length (safe_quote quote) <= 20
  /\ hd_error (safe_quote quote) <> Some PyChars.UNDERSCORE
  /\ hd_error (rev (safe_quote quote)) <> Some PyChars.UNDERSCORE
  /\ ~ In PyChars.SLASH (adhoc_filename quote).
Proof.
  unfold safe_quote.
  set (mapped := map _ (Py.slice_to quote 20)).
  assert (F : Forall (fun c => PyChars.isalnum c = true
                               \/ c = PyChars.UNDERSCORE) mapped).
  { subst mapped. apply Forall_forall. intros c H.
    apply in_map_iff in H as (d & <- & _).
    destruct (PyChars.isalnum d) eqn:E; auto. }
  assert (L : length mapped <= 20).
  { subst mapped. rewrite length_map. unfold Py.slice_to.
    cbn. rewrite length_firstn. lia. }
  destruct (AdhocFacts.strip_char_spec PyChars.UNDERSCORE mapped)
    as (_ & H1 & H2).
  pose proof (@AdhocFacts.strip_char_Forall _ PyChars.UNDERSCORE mapped F)
    as F'.
  pose proof (AdhocFacts.strip_char_length PyChars.UNDERSCORE mapped) as L'.
  repeat split; auto; [lia|].
  unfold adhoc_filename. fold mapped. intros I.
  apply in_app_or in I as [I|I];
    [cbn in I; repeat destruct I as [I|I]; try discriminate; exact I|].
  apply in_app_or in I as [I|I];
    [|cbn in I; repeat destruct I as [I|I]; try discriminate; exact I].
  unfold safe_quote in I. rewrite Forall_forall in F'.
  destruct (F' _ I) as [A|A]; discriminate.
Qed.

(** X21.  Whatever the quote, the file name of an ad-hoc image is made
    of [adhoc_], at most 20 characters that are alphanumeric or
    underscores, with no underscore at either end, and [.png]; it holds
    no slash. *)
Theorem adhoc_filename_safe (quote : str) :
  Forall (fun c => PyChars.isalnum c = true \/ c = PyChars.UNDERSCORE)
    (safe_quote quote)
  /\ length (safe_quote quote) <= 20
  /\ hd_error (safe_quote quote) <> Some PyChars.UNDERSCORE
  /\ hd_error (rev (safe_quote quote)) <> Some PyChars.UNDERSCORE
  /\ ~ In PyChars.SLASH (adhoc_filename quote).
Proof. apply safe_quote_spec. Qed.

(** X22.  When [generate_adhoc] generates an image, the quote and the
    speaker are the trimmed lines typed, and the image is a file of the
    output directory itself, whatever the quote holds: the last
    component of its path is the ad-hoc file name. *)
Theorem adhoc_image_in_output_directory
    (generate_image : str -> str -> str -> result unit)
    (root typed_quote typed_speaker quote speaker output_path : str) :
  generate_adhoc generate_image (Some root) typed_quote typed_speaker
  = Generated quote speaker output_path ->
  quote = Py.strip typed_quote
  /\ speaker = Py.strip typed_speaker
  /\ nonspace typed_quote <> []
  /\ output_path
     = Py.path_join (Py.path_join root (s!"output")) (adhoc_filename quote)
  /\ basename output_path = adhoc_filename quote.
Proof.
  unfold generate_adhoc.
  destruct (Py.truthy (Py.strip typed_quote)) eqn:B; cbn [negb];
    [|discriminate].
  destruct (generate_image _ _ _); [|discriminate].
  intros [= <- <- <-]. repeat split.
  - intros N. apply blank_iff_nonspace in N. congruence.
  - apply AdhocFacts.basename_join. apply safe_quote_spec.
Qed.

Lemma adhoc_image_in_output_directory_witness :
  basename (s!"/home/user/quotes/output/adhoc_etc_passwd.png")
  = adhoc_filename (s!"../../etc/passwd").
Proof.
  apply (@adhoc_image_in_output_directory renders (s!"/home/user/quotes")
           (s!"  ../../etc/passwd ") (s!" nobody") (s!"../../etc/passwd")
           (s!"nobody") (s!"/home/user/quotes/output/adhoc_etc_passwd.png")).
  vm_compute. reflexivity.
Defined.

(** ** The folder of CSV files *)

Module FolderFacts.

Import Py PyChars.






End FolderFacts.



Section FolderMore.

Variable generate_image : str -> str -> str -> result unit.

Lemma process_csv_count (csv_filename output_dir content : str)
    (written : list image_call) (n : nat) :
  process_csv generate_image csv_filename output_dir content
  = (written, Ok n) ->
  n = length written.
Proof.
  unfold process_csv, process_lines.
  destruct (run generate_image csv_filename output_dir initial
              (tl (Py.split_nl content))) as [st r0] eqn:R.
  assert (N : numbered csv_filename output_dir st).
  { eapply run_numbered; [|exact R]. split; reflexivity. }
  destruct r0 as [?|e]; [|discriminate].
  destruct (Py.truthy (Py.strip (current_quote st))).
  - destruct (emit generate_image csv_filename output_dir _ _ st)
      as [st2|e] eqn:E; [|discriminate].
    eapply emit_numbered in E; [|exact N]. intros [= <- <-]. apply E.
  - intros [= <- <-]. apply N.
Qed.

Lemma process_files_total (output_dir : str) (content : str -> str)
    (files : list str) :
  forall total written total' written',
    total = length written ->
    process_files generate_image output_dir content files total written
    = FolderDone total' written' ->
    total' = length written'
    /\ exists more, written' = written ++ more.
Proof.
  induction files as [|name files IH];
    intros total written total' written' H P; cbn [process_files] in P.
  - injection P as <- <-. split; [exact H|]. exists []. now rewrite app_nil_r.
  - destruct (process_csv generate_image (Pathlib.stem name) output_dir
                (content name)) as [imgs [n|e]] eqn:C; [|discriminate].
    apply process_csv_count in C.
    apply IH in P as [P (more & ->)].
    + split; [exact P|]. exists (imgs ++ more). now rewrite app_assoc.
    + rewrite length_app. lia.
Qed.

(** X24.  When [generate_from_folder] comes to its end, the total it
    reports is the number of images written for all the files
    together. *)
Theorem folder_total_counts_images (project_root : option str)
    (data_dir_exists : bool) (names : list str) (content : str -> str)
    (total : nat) (written : list image_call) :
  generate_from_folder generate_image project_root data_dir_exists names
    content = FolderDone total written ->
  total = length written.
Proof.
  unfold generate_from_folder.
  destruct project_root as [root|]; [|discriminate].
  destruct data_dir_exists; cbn [negb]; [|discriminate].
  destruct (csv_files names) as [|f fs]; [discriminate|].
  intros P. now apply process_files_total in P as [P _].
Qed.

End FolderMore.

Lemma folder_total_counts_images_witness :
  2 = length
        [Call (s!"Know thyself") (s!"Socrates")
           (s!"/home/user/quotes/output/greek_quote_001.png");
         Call (s!"Be yourself") (s!"Oscar Wilde")
           (s!"/home/user/quotes/output/irish_quote_001.png")].
Proof.
  apply (@folder_total_counts_images renders (Some (s!"/home/user/quotes"))
           true [s!"greek.csv"; s!"readme.txt"; s!"irish.csv"]
           (fun name =>
              if Py.eqb_str name (s!"greek.csv")
              then s!"quote,speaker" ++ Py.NL :: s!"Know thyself, Socrates"
              else s!"quote,speaker" ++ Py.NL
                     :: s!"Be yourself, Oscar Wilde")).
  vm_compute. reflexivity.
Defined.

(** ** The rotation of the images *)

Section RotateMore.

Variable rotate_file : str -> result unit.

Local Abbreviation rotate_loop_ := (rotate_loop rotate_file).
Local Abbreviation rotates_ := (rotates rotate_file).

Lemma rotate_loop_spec (files : list str) :
  forall success error saved,
    rotate_loop_ files success error saved
    = (success + length (filter (fun f => is_image f && rotates_ f) files),
       error + length (filter (fun f => is_image f && negb (rotates_ f))
                         files),
       saved ++ filter (fun f => is_image f && rotates_ f) files).
Proof.
  induction files as [|f files IH]; intros success error saved.
  - cbn. now rewrite !Nat.add_0_r, app_nil_r.
  - cbn [rotate_loop filter].
    destruct (is_image f); cbn [andb]; [|apply IH].
    destruct (rotate_file f) eqn:Rf.
    + assert (T : rotates_ f = true) by (unfold rotates; now rewrite Rf).
      rewrite T, IH. cbn [negb length]. rewrite <- app_assoc. cbn [app].
      f_equal. f_equal. lia.
    + assert (T : rotates_ f = false) by (unfold rotates; now rewrite Rf).
      rewrite T, IH. cbn [negb length]. f_equal. f_equal. lia.
Qed.

(** X25.  [rotate_images] tries every file of the directory that has an
    image extension, in any case of letters, whatever happened to the
    files before it: a failure is counted and the loop goes on.  The
    two counts it reports add up to the number of image files, and the
    files saved are those whose rotation returned. *)
Theorem rotation_failures_are_isolated
    (directory project_root : option str) (files : list str)
    (success error : nat) (saved : list str) :
  rotate_images rotate_file directory project_root true files
  = Rotated success error saved ->
  saved = filter (fun f => is_image f && rotates_ f) files
  /\ success = length saved
  /\ error = length (filter (fun f => is_image f && negb (rotates_ f)) files)
  /\ success + error = length (filter is_image files).
Proof.
  unfold rotate_images.
  assert (G : (let '(s, e, sv) := rotate_loop_ files 0 0 [] in
               Rotated s e sv) = Rotated success error saved ->
              saved = filter (fun f => is_image f && rotates_ f) files
              /\ success = length saved
              /\ error = length (filter (fun f => is_image f
                                                  && negb (rotates_ f)) files)
              /\ success + error = length (filter is_image files)).
  { rewrite rotate_loop_spec. cbn [plus app]. intros [= <- <- <-].
    repeat split. clear.
    induction files as [|f files IH]; [reflexivity|].
    cbn [filter]. destruct (is_image f); cbn [andb]; [|exact IH].
    destruct (rotates_ f); cbn [negb length]; lia. }
  destruct directory, project_root; cbn [negb];
    try discriminate; destruct files; try discriminate; exact G.
Qed.

End RotateMore.

Lemma rotation_failures_are_isolated_witness :
  [s!"a.png"; s!"c.JPG"] =
    filter (fun f => is_image f && rotates (fails_on (s!"b.png")) f)
      [s!"a.png"; s!"b.png"; s!"notes.txt"; s!"c.JPG"]
  /\ 2 = length [s!"a.png"; s!"c.JPG"]
  /\ 1 = length
           (filter (fun f => is_image f
                             && negb (rotates (fails_on (s!"b.png")) f))
              [s!"a.png"; s!"b.png"; s!"notes.txt"; s!"c.JPG"])
  /\ 2 + 1 = length (filter is_image
                       [s!"a.png"; s!"b.png"; s!"notes.txt"; s!"c.JPG"]).
Proof.
  apply (@rotation_failures_are_isolated (fails_on (s!"b.png")) None
           (Some (s!"/home/user/quotes"))
           [s!"a.png"; s!"b.png"; s!"notes.txt"; s!"c.JPG"]).
  vm_compute. reflexivity.
Defined.
